(** * reSID-fp waveform generator (vice/src/resid-fp/wave.h)

    A shallow embedding of the inline member functions of
    [WaveformGeneratorFP]: [clock], [clock_noise], [synchronize],
    [outputN___] and [output], and the properties of the oscillator,
    the noise shift register and the sync network that follow from them.

    Integers are [Z] with the wrap-around of the C++ types written out,
    bit operations are [Z.land], [Z.lor], [Z.lxor], [Z.shiftl], [Z.shiftr].
    The [float] type and its addition are abstract: the tables [dac] and
    [wftable] are declared [extern] in wave.h and defined elsewhere. *)

From Stdlib Require Import ZArith Lia Bool List.
From stdpp Require Import base list.
Import ListNotations.

Local Open Scope Z_scope.

(** ** Machine integers *)

(** Modelled from the spec: siddefs-fp.h, which declares the register types
    [reg8], [reg12], [reg16] and [reg24] that wave.h uses for its fields, is
    not among the sources. The spec gives the registers as unsigned values
    of at most 24 bits; they are held here in one 32-bit unsigned word, the
    narrowest standard unsigned type that holds 24 bits, so that the masks
    written in the code are the only reduction to a register's nominal
    width. *)
Definition reg_bits : Z := 32.

(** The value of an unsigned expression. *)
Definition wrap (x : Z) : Z := x mod 2 ^ reg_bits.

(** The value of an [int] expression (two's complement, 32 bits). *)
Definition wrap_int (x : Z) : Z := (x + 2 ^ 31) mod 2 ^ 32 - 2 ^ 31.

(** A C++ integer used as a condition. *)
Definition nonzero (x : Z) : bool := negb (x =? 0).

Module CNotations.
Infix ".&" := Z.land (at level 40, left associativity).
Infix ".|" := Z.lor (at level 50, left associativity).
Infix ".^" := Z.lxor (at level 45, left associativity).
Infix ">>" := Z.shiftr (at level 33, left associativity).
Infix "<<" := Z.shiftl (at level 33, left associativity).
End CNotations.
Import CNotations.

Section Wave.

(** [float], its addition, and the two extern tables. *)
Context {F : Type}.
Variable fadd : F -> F -> F.
Variable dac : Z -> F.
Variable wftable : Z -> Z -> F.

(** ** The oscillator

    The fields of [class WaveformGeneratorFP] that the inline functions
    read or write. [sync_source] and [sync_dest] are pointers to other
    oscillators owned by the chip; they are indices into the chip's array
    of voices. The [model] field is read by none of these functions. *)
Record WaveformGeneratorFP : Type := mkWave {
  sync_source : nat;
  sync_dest : nat;
  msb_rising : bool;
  accumulator : Z;
  shift_register : Z;
  noise_output_cached : Z;
  previous : Z;
  noise_overwrite_delay : Z;
  freq : Z;
  pw : Z;
  waveform : Z;
  test : bool;
  ring_mod : bool;
  sync : bool;
  wave_zero : F;
  previous_dac : F;
  noise_output_cached_dac : F
}.

Definition set_msb_rising (b : bool) (o : WaveformGeneratorFP) :=
  mkWave (sync_source o) (sync_dest o) b (accumulator o) (shift_register o)
    (noise_output_cached o) (previous o) (noise_overwrite_delay o) (freq o)
    (pw o) (waveform o) (test o) (ring_mod o) (sync o) (wave_zero o)
    (previous_dac o) (noise_output_cached_dac o).

Definition set_accumulator (a : Z) (o : WaveformGeneratorFP) :=
  mkWave (sync_source o) (sync_dest o) (msb_rising o) a (shift_register o)
    (noise_output_cached o) (previous o) (noise_overwrite_delay o) (freq o)
    (pw o) (waveform o) (test o) (ring_mod o) (sync o) (wave_zero o)
    (previous_dac o) (noise_output_cached_dac o).

Definition set_shift_register (r : Z) (o : WaveformGeneratorFP) :=
  mkWave (sync_source o) (sync_dest o) (msb_rising o) (accumulator o) r
    (noise_output_cached o) (previous o) (noise_overwrite_delay o) (freq o)
    (pw o) (waveform o) (test o) (ring_mod o) (sync o) (wave_zero o)
    (previous_dac o) (noise_output_cached_dac o).

Definition set_noise_output_cached (w : Z) (o : WaveformGeneratorFP) :=
  mkWave (sync_source o) (sync_dest o) (msb_rising o) (accumulator o)
    (shift_register o) w (previous o) (noise_overwrite_delay o) (freq o)
    (pw o) (waveform o) (test o) (ring_mod o) (sync o) (wave_zero o)
    (previous_dac o) (noise_output_cached_dac o).

Definition set_noise_overwrite_delay (d : Z) (o : WaveformGeneratorFP) :=
  mkWave (sync_source o) (sync_dest o) (msb_rising o) (accumulator o)
    (shift_register o) (noise_output_cached o) (previous o) d (freq o)
    (pw o) (waveform o) (test o) (ring_mod o) (sync o) (wave_zero o)
    (previous_dac o) (noise_output_cached_dac o).

Definition set_noise_output_cached_dac (v : F) (o : WaveformGeneratorFP) :=
  mkWave (sync_source o) (sync_dest o) (msb_rising o) (accumulator o)
    (shift_register o) (noise_output_cached o) (previous o)
    (noise_overwrite_delay o) (freq o) (pw o) (waveform o) (test o)
    (ring_mod o) (sync o) (wave_zero o) (previous_dac o) v.

(** ** Noise output

    [outputN___]: the eight taps of the shift register, moved to bits
    11..4 of the 12-bit waveform output. *)
Definition outputN___ (o : WaveformGeneratorFP) : Z :=
  let shift_register := shift_register o in
  ((shift_register .& 0x400000) >> 11) .|
  ((shift_register .& 0x100000) >> 10) .|
  ((shift_register .& 0x010000) >> 7) .|
  ((shift_register .& 0x002000) >> 5) .|
  ((shift_register .& 0x000800) >> 4) .|
  ((shift_register .& 0x000080) >> 1) .|
  wrap ((shift_register .& 0x000010) << 1) .|
  wrap ((shift_register .& 0x000004) << 2).

(** The loop [for (int i = 0; i < 12; i ++) if (noise_output_cached &
    (1 << i)) noise_output_cached_dac += dac[i];] started from [v]. *)
Definition dac_loop (noise_output_cached : Z) (v : F) : F :=
  fold_left
    (fun v i => if nonzero (noise_output_cached .& (1 << i))
                then fadd v (dac i) else v)
    (map Z.of_nat (seq 0 12)) v.

(** The statements that follow every change of the shift register, in
    [clock] and in [clock_noise] alike:
    [noise_output_cached = outputN___(); noise_output_cached_dac =
    wave_zero;] and the loop over the DAC bits. *)
Definition recompute_noise_output (o : WaveformGeneratorFP)
  : WaveformGeneratorFP :=
  let o1 := set_noise_output_cached (outputN___ o) o in
  set_noise_output_cached_dac
    (dac_loop (noise_output_cached o1) (wave_zero o1)) o1.

(** The constant of [clock_noise]:
    [0x7fffff^(1<<22)^(1<<20)^(1<<16)^(1<<13)^(1<<11)^(1<<7)^(1<<4)^(1<<2)]. *)
Definition noise_clear_mask : Z :=
  0x7fffff .^ (1 << 22) .^ (1 << 20) .^ (1 << 16) .^ (1 << 13) .^ (1 << 11)
           .^ (1 << 7) .^ (1 << 4) .^ (1 << 2).

(** ** [clock_noise] *)
Definition clock_noise (clock : bool) (o : WaveformGeneratorFP)
  : WaveformGeneratorFP :=
  let o1 :=
    if clock then
      let bit0 := ((shift_register o >> 22) .^ (shift_register o >> 17)) .& 0x1 in
      let o' := set_shift_register (wrap (shift_register o << 1)) o in
      set_shift_register (shift_register o' .| bit0) o'
    else o in
  let o2 :=
    if 8 <? waveform o1
    then set_shift_register (shift_register o1 .& noise_clear_mask) o1
    else o1 in
  recompute_noise_output o2.

(** ** [clock]: one SID cycle *)
Definition clock (o : WaveformGeneratorFP) : WaveformGeneratorFP :=
  if test o then
    if nonzero (noise_overwrite_delay o) then
      let o1 := set_noise_overwrite_delay
                  (wrap_int (noise_overwrite_delay o - 1)) o in
      if noise_overwrite_delay o1 =? 0 then
        recompute_noise_output
          (set_shift_register (shift_register o1 .| 0x7ffffc) o1)
      else o1
    else o
  else
    let accumulator_prev := accumulator o in
    let o1 := set_accumulator (wrap (accumulator o + freq o)) o in
    let o2 := set_accumulator (accumulator o1 .& 0xffffff) o1 in
    let o3 := set_msb_rising
                (negb (nonzero (accumulator_prev .& 0x800000))
                 && nonzero (accumulator o2 .& 0x800000)) o2 in
    if negb (nonzero (accumulator_prev .& 0x080000))
       && nonzero (accumulator o3 .& 0x080000)
    then clock_noise true o3
    else o3.

(** ** The chip's voices

    The oscillators are owned by the chip and refer to each other through
    [sync_source] and [sync_dest]; a function that follows such a pointer
    takes the array of voices and the index of [this]. Following a pointer
    that names no voice has no defined result ([None]). *)
Definition voices : Type := list WaveformGeneratorFP.

(** [sync_source->msb_rising], read only when [sync] holds
    (the right operand of [&&] is evaluated only if the left one is true). *)
Definition sync_and_source_rising (st : voices) (o : WaveformGeneratorFP)
  : option bool :=
  if sync o then
    match st !! sync_source o with
    | Some s => Some (msb_rising s)
    | None => None
    end
  else Some false.

(** ** [synchronize] *)
Definition synchronize (this : nat) (st : voices) : option voices :=
  match st !! this with
  | None => None
  | Some o =>
    if msb_rising o then
      match st !! sync_dest o with
      | None => None
      | Some d =>
        if sync d then
          match sync_and_source_rising st o with
          | None => None
          | Some c =>
            if negb c
            then Some (<[sync_dest o := set_accumulator 0 d]> st)
            else Some st
          end
        else Some st
      end
    else Some st
  end.

(** ** [output] *)

(** [wftable[t][p]] of [float wftable[11][4096]]; an access outside the
    array has no defined result. *)
Definition wftable_at (t p : Z) : option F :=
  if (0 <=? t) && (t <? 11) && (0 <=? p) && (p <? 4096)
  then Some (wftable t p) else None.

(** [int variant = waveform >= 4 && (test || phase >= pw) ? 3 : -1;] *)
Definition pulse_variant (o : WaveformGeneratorFP) (phase : Z) : Z :=
  if (4 <=? waveform o) && (test o || (pw o <=? phase)) then 3 else -1.

(** The condition of the ring modulation:
    [(waveform & 3) == 1 && ring_mod && (sync_source->accumulator & 0x800000)]. *)
Definition ring_mod_flips (st : voices) (o : WaveformGeneratorFP)
  : option bool :=
  if ((waveform o .& 3) =? 1) && ring_mod o then
    match st !! sync_source o with
    | Some s => Some (nonzero (accumulator s .& 0x800000))
    | None => None
    end
  else Some false.

(** The two indices of the table access of waveforms 1 .. 7:
    [waveform + variant] (an unsigned sum) and the phase after the ring
    modulation. *)
Definition wftable_index (st : voices) (o : WaveformGeneratorFP)
  : option (Z * Z) :=
  let phase := accumulator o >> 12 in
  let variant := pulse_variant o phase in
  match ring_mod_flips st o with
  | None => None
  | Some flip =>
    let phase := if flip then phase .^ 0x800 else phase in
    Some (wrap (waveform o + variant), phase)
  end.

Definition output (this : nat) (st : voices) : option F :=
  match st !! this with
  | None => None
  | Some o =>
    if waveform o =? 0 then Some (previous_dac o)
    else if waveform o =? 8 then Some (noise_output_cached_dac o)
    else if 8 <? waveform o then Some (wave_zero o)
    else
      match wftable_index st o with
      | None => None
      | Some (t, p) => wftable_at t p
      end
  end.

End Wave.

Arguments WaveformGeneratorFP : clear implicits.
Arguments voices : clear implicits.

(** ** The properties in the words of the design *)

(** The wiring of the noise output: shift-register tap and the bit of the
    12-bit output word it drives. *)
Definition noise_taps : list (Z * Z) :=
  [(22, 11); (20, 10); (16, 9); (13, 8); (11, 7); (7, 6); (4, 5); (2, 4)].

(** The 12-bit noise word of a register value, tap by tap. *)
Definition noise_word (r : Z) : Z :=
  fold_right (fun t w => Z.b2z (Z.testbit r (fst t)) * 2 ^ snd t + w) 0
    noise_taps.

(** Zero level plus the DAC weight of every bit set in a 12-bit word,
    added from bit 0 upwards. *)
Definition dac_sum {F : Type} (fadd : F -> F -> F) (dac : Z -> F)
    (wave_zero : F) (w : Z) : F :=
  fold_left fadd
    (map dac (List.filter (fun i => Z.testbit w i) (map Z.of_nat (seq 0 12))))
    wave_zero.

(** Whether a bit of the shift register is one of the output taps. *)
Definition is_tap (i : Z) : bool :=
  existsb (fun t => fst t =? i) noise_taps.

(** One step of a 23-bit shift register with feedback from bits 22 and 17:
    the register moves up by one position within 23 bits and the feedback
    bit enters at position 0. *)
Definition lfsr23_step (r : Z) : Z :=
  Z.lor (Z.shiftl r 1 mod 2 ^ 23)
        (Z.b2z (xorb (Z.testbit r 22) (Z.testbit r 17))).

(** The sync network is wired consistently: the sync source of a voice's
    destination is that voice, the two being the ends of one link. (wave.h
    declares [set_sync_source], which sets up a link, without its body; the
    chip wires its voices once.) *)
Definition wired {F : Type} (st : voices F) : Prop :=
  forall (i : nat) (o d : WaveformGeneratorFP F),
    st !! i = Some o -> st !! sync_dest o = Some d -> sync_source d = i.

(** The accumulator holds a 24-bit value. *)
Definition accumulator_ok {F : Type} (o : WaveformGeneratorFP F) : Prop :=
  0 <= accumulator o < 2 ^ 24.

(** The fields that only register writes change: the wiring, FREQ, PW, the
    control bits, the zero level and the previous output. *)
Definition same_controls {F : Type} (o o' : WaveformGeneratorFP F) : Prop :=
  sync_source o' = sync_source o /\ sync_dest o' = sync_dest o /\
  previous o' = previous o /\ freq o' = freq o /\ pw o' = pw o /\
  waveform o' = waveform o /\ test o' = test o /\
  ring_mod o' = ring_mod o /\ sync o' = sync o /\
  wave_zero o' = wave_zero o /\ previous_dac o' = previous_dac o.

(** The cached noise word and sample are those of the shift register. *)
Definition noise_cache_coherent {F : Type} (fadd : F -> F -> F) (dac : Z -> F)
    (o : WaveformGeneratorFP F) : Prop :=
  noise_output_cached o = outputN___ o /\
  noise_output_cached_dac o = dac_sum fadd dac (wave_zero o) (outputN___ o).

(** The step of the 23-bit register backwards: bit 22 before the step is
    the feedback, now at bit 0, XOR the old bit 17, now at bit 18. *)
Definition lfsr23_unstep (y : Z) : Z :=
  Z.lor (Z.shiftr y 1)
        (Z.shiftl (Z.b2z (xorb (Z.testbit y 0) (Z.testbit y 18))) 22).

(** Bit [i] of the register after a step that also clears the taps, from
    the bits [b] before the step. *)
Definition cleared_step_bit (b : Z -> bool) (i : Z) : bool :=
  negb (is_tap i) && (i <? 23)
  && (if i =? 0 then xorb (b 22) (b 17) else b (i - 1)).

(** What [synchronize] decides for a voice, from the flags and the wiring
    alone: no defined result ([None]), no reset ([Some None]), or the reset
    of a voice ([Some (Some d)]). *)
Definition sync_target {F : Type} (this : nat) (st : voices F)
  : option (option nat) :=
  match st !! this with
  | None => None
  | Some o =>
    if msb_rising o then
      match st !! sync_dest o with
      | None => None
      | Some d =>
        if sync d then
          match sync_and_source_rising st o with
          | None => None
          | Some c => if negb c then Some (Some (sync_dest o)) else Some None
          end
        else Some None
      end
    else Some None
  end.

(** Setting the accumulator of voice [d] to zero. *)
Definition reset_accumulator {F : Type} (d : nat) (st : voices F) : voices F :=
  match st !! d with
  | Some v => <[d := set_accumulator 0 v]> st
  | None => st
  end.

(** ** Concrete oscillators

    An instance over the integers: [float] is [Z] with its addition, the
    DAC weights are the ideal powers of two, and entry [p] of table [t]
    holds [4096 * t + p], so that a sample names the entry it came from. *)
Module Sample.

Definition dac (i : Z) : Z := 2 ^ i.
Definition wftable (t p : Z) : Z := 4096 * t + p.

(** A free-running oscillator: FREQ = 4096, accumulator 0, pulse
    waveform with PW = 2048. *)
Definition osc : WaveformGeneratorFP Z :=
  mkWave 0%nat 0%nat false 0 0x7ffff8 0 0 0 4096 2048 4
         false false false 0 0 0.

(** The same oscillator at an accumulator value. *)
Definition osc_at (a : Z) : WaveformGeneratorFP Z := set_accumulator a osc.

(** A voice with a waveform, a ring-modulation bit, an accumulator and
    its sync source. *)
Definition voice (wf : Z) (ring : bool) (a : Z) (src : nat)
  : WaveformGeneratorFP Z :=
  mkWave src 0%nat false a 0x7ffff8 0 0 0 4096 2048 wf
         false ring false 0 0 0.

(** A noise oscillator with a shift register value and waveform. *)
Definition noise_osc (wf r : Z) : WaveformGeneratorFP Z :=
  mkWave 0%nat 0%nat false 0 r 0 0 0 4096 2048 wf
         false false false 0 0 0.

(** An oscillator held in test with a drained noise register and [d]
    cycles left of the overwrite delay. *)
Definition held (d : Z) : WaveformGeneratorFP Z :=
  mkWave 0%nat 0%nat false 0 0 0 0 d 4096 2048 8
         true false false 0 0 0.

(** Two voices synced to each other, both with SYNC set and with the
    MSB of both risen on this cycle. *)
Definition mutual0 : WaveformGeneratorFP Z :=
  mkWave 1%nat 1%nat true 0x800000 0x7ffff8 0 0 0 4096 2048 4
         false false true 0 0 0.
Definition mutual1 : WaveformGeneratorFP Z :=
  mkWave 0%nat 0%nat true 0x800123 0x7ffff8 0 0 0 4096 2048 4
         false false true 0 0 0.
Definition mutual : voices Z := [mutual0; mutual1].

(** Voice 0, not synced itself, with its MSB risen on this cycle, and
    its destination voice 1 with SYNC set. *)
Definition chain0 : WaveformGeneratorFP Z :=
  mkWave 1%nat 1%nat true 0x800000 0x7ffff8 0 0 0 4096 2048 4
         false false false 0 0 0.
Definition chain1 : WaveformGeneratorFP Z :=
  mkWave 0%nat 0%nat false 0x123456 0x7ffff8 0 0 0 4096 2048 4
         false false true 0 0 0.
Definition chain : voices Z := [chain0; chain1].

(** A voice with waveform [wf] and ring modulation on, at phase 0, and
    its sync source with bit 23 of the accumulator set. *)
Definition ring_pair (wf : Z) : voices Z :=
  [ voice wf true 0 1%nat; voice 0 false 0x800000 0%nat ].

(** The functions at this instance. *)
Abbreviation clock := (clock Z.add dac).
Abbreviation clock_noise := (clock_noise Z.add dac).
Abbreviation output := (output wftable).

End Sample.

(** * Properties *)

(** ** Bits of machine integers *)

Lemma land_pow2 (x n : Z) :
  0 <= n -> Z.land x (2 ^ n) = if Z.testbit x n then 2 ^ n else 0.
Proof.
  intros Hn. apply Z.bits_inj'. intros m Hm.
  rewrite Z.land_spec, Z.pow2_bits_eqb by assumption.
  destruct (Z.eqb_spec n m) as [->|Hne].
  - destruct (Z.testbit x m); simpl.
    + symmetry. now apply Z.pow2_bits_true.
    + now rewrite Z.bits_0.
  - rewrite andb_false_r. destruct (Z.testbit x n).
    + symmetry. now apply Z.pow2_bits_false.
    + now rewrite Z.bits_0.
Qed.

Lemma land_mask (x m n : Z) :
  0 <= n -> m = 2 ^ n -> Z.land x m = if Z.testbit x n then m else 0.
Proof. intros Hn ->. now apply land_pow2. Qed.

Lemma nonzero_land_pow2 (x n : Z) :
  0 <= n -> nonzero (Z.land x (2 ^ n)) = Z.testbit x n.
Proof.
  intros Hn. rewrite land_pow2 by assumption. unfold nonzero.
  destruct (Z.testbit x n).
  - assert (0 < 2 ^ n) by (apply Z.pow_pos_nonneg; lia).
    destruct (Z.eqb_spec (2 ^ n) 0); [lia | reflexivity].
  - reflexivity.
Qed.

Lemma wrap_mod (x n : Z) : 0 <= n <= reg_bits -> wrap x mod 2 ^ n = x mod 2 ^ n.
Proof.
  intros Hn. unfold wrap. apply Z.mod_mod_divide.
  exists (2 ^ (reg_bits - n)). rewrite <- Z.pow_add_r by lia. f_equal. lia.
Qed.

Lemma wrap_land_24 (x : Z) : Z.land (wrap x) 0xffffff = x mod 2 ^ 24.
Proof.
  change 0xffffff with (Z.ones 24). rewrite Z.land_ones by lia.
  apply wrap_mod. unfold reg_bits. lia.
Qed.

Lemma testbit_23_below (a : Z) : 0 <= a < 2 ^ 23 -> Z.testbit a 23 = false.
Proof.
  intros H. apply Z.testbit_false; [lia|]. rewrite Z.div_small by lia.
  reflexivity.
Qed.


Section Properties.

Context {F : Type}.
Variable fadd : F -> F -> F.
Variable dac : Z -> F.
Variable wftable : Z -> Z -> F.

Local Abbreviation osc := (WaveformGeneratorFP F).
Local Abbreviation clock := (clock fadd dac).
Local Abbreviation clock_noise := (clock_noise fadd dac).
Local Abbreviation recompute_noise_output := (recompute_noise_output fadd dac).
Local Abbreviation dac_loop := (dac_loop fadd dac).
Local Abbreviation output := (output wftable).
Local Abbreviation wftable_at := (wftable_at wftable).

(** ** What the noise generator leaves alone *)

Lemma clock_noise_frame (c : bool) (o : osc) :
  accumulator (clock_noise c o) = accumulator o /\
  msb_rising (clock_noise c o) = msb_rising o /\
  freq (clock_noise c o) = freq o /\
  test (clock_noise c o) = test o /\
  waveform (clock_noise c o) = waveform o /\
  wave_zero (clock_noise c o) = wave_zero o /\
  noise_overwrite_delay (clock_noise c o) = noise_overwrite_delay o.
Proof.
  unfold clock_noise, recompute_noise_output.
  destruct c; cbn; destruct (8 <? waveform o); cbn; repeat split.
Qed.

Lemma clock_frame (o : osc) :
  freq (clock o) = freq o /\ test (clock o) = test o /\
  waveform (clock o) = waveform o /\ wave_zero (clock o) = wave_zero o.
Proof.
  unfold clock.
  destruct (test o) eqn:Ht.
  - destruct (nonzero (noise_overwrite_delay o)); [|now rewrite Ht].
    cbn. destruct (_ =? 0); cbn; now rewrite Ht.
  - match goal with
    | |- context [if ?b then _ else _] => destruct b
    end.
    + destruct (clock_noise_frame true
        (set_msb_rising
           (negb (nonzero (Z.land (accumulator o) 0x800000)) &&
            nonzero (Z.land (Z.land (wrap (accumulator o + freq o)) 0xffffff) 0x800000))
           (set_accumulator (Z.land (wrap (accumulator o + freq o)) 0xffffff)
              (set_accumulator (wrap (accumulator o + freq o)) o))))
        as (_ & _ & Hf & Hte & Hw & Hz & _).
      cbn in *. rewrite Hf, Hte, Hw, Hz. now rewrite Ht.
    + cbn. now rewrite Ht.
Qed.

(** The free-running branch of [clock], with the masks read as bits. *)
Lemma clock_running (o : osc) :
  test o = false ->
  let a' := (accumulator o + freq o) mod 2 ^ 24 in
  let rising n := negb (Z.testbit (accumulator o) n) && Z.testbit a' n in
  let o' := set_msb_rising (rising 23) (set_accumulator a' o) in
  clock o = if rising 19 then clock_noise true o' else o'.
Proof.
  intros Ht a' rising o'. unfold clock. rewrite Ht. cbn.
  rewrite wrap_land_24. fold a'.
  change 0x800000 with (2 ^ 23). change 0x080000 with (2 ^ 19).
  rewrite !nonzero_land_pow2 by lia.
  reflexivity.
Qed.

Lemma clock_running_accumulator (o : osc) :
  test o = false ->
  accumulator (clock o) = (accumulator o + freq o) mod 2 ^ 24.
Proof.
  intros Ht. rewrite (clock_running o Ht). cbv zeta.
  match goal with |- context [if ?b then _ else _] => destruct b end.
  - now destruct (clock_noise_frame true
      (set_msb_rising
         (negb (Z.testbit (accumulator o) 23) &&
          Z.testbit ((accumulator o + freq o) mod 2 ^ 24) 23)
         (set_accumulator ((accumulator o + freq o) mod 2 ^ 24) o))) as [-> _].
  - reflexivity.
Qed.

Lemma clock_running_msb_rising (o : osc) :
  test o = false ->
  msb_rising (clock o) =
    negb (Z.testbit (accumulator o) 23) &&
    Z.testbit ((accumulator o + freq o) mod 2 ^ 24) 23.
Proof.
  intros Ht. rewrite (clock_running o Ht). cbv zeta.
  match goal with |- context [if ?b then _ else _] => destruct b end.
  - now destruct (clock_noise_frame true
      (set_msb_rising
         (negb (Z.testbit (accumulator o) 23) &&
          Z.testbit ((accumulator o + freq o) mod 2 ^ 24) 23)
         (set_accumulator ((accumulator o + freq o) mod 2 ^ 24) o)))
      as (_ & -> & _).
  - reflexivity.
Qed.

Lemma clock_held_accumulator (o : osc) :
  test o = true -> accumulator (clock o) = accumulator o.
Proof.
  intros Ht. unfold clock. rewrite Ht.
  destruct (nonzero _); [|reflexivity].
  cbn. now destruct (_ =? 0).
Qed.

(** [n] cycles of a free-running oscillator. *)
Lemma iter_clock_frame (n : nat) (o : osc) :
  freq (Nat.iter n clock o) = freq o /\ test (Nat.iter n clock o) = test o.
Proof.
  induction n as [|n [IHf IHt]]; [now split|].
  rewrite Nat.iter_succ.
  destruct (clock_frame (Nat.iter n clock o)) as (-> & -> & _).
  now split.
Qed.

Lemma iter_clock_accumulator (n : nat) (o : osc) :
  test o = false -> 0 <= accumulator o < 2 ^ 24 ->
  accumulator (Nat.iter n clock o)
  = (accumulator o + Z.of_nat n * freq o) mod 2 ^ 24.
Proof.
  intros Ht Ha. induction n as [|n IH].
  - change (Nat.iter 0 clock o) with o. rewrite Z.mod_small by lia. lia.
  - rewrite Nat.iter_succ. destruct (iter_clock_frame n o) as [Hf Hte].
    rewrite clock_running_accumulator by congruence.
    rewrite IH, Hf, Z.add_mod_idemp_l by lia. f_equal. lia.
Qed.

(** ** The phase accumulator *)

(** C1. One [clock] call: while TEST is held the accumulator does not
    change; otherwise the accumulator becomes (accumulator + FREQ) mod 2^24,
    [msb_rising] tells whether bit 23 went from 0 to 1, and the noise
    generator is clocked exactly when bit 19 went from 0 to 1. With
    FREQ = 4096 from accumulator 0 and TEST clear, the accumulator is back
    at 0 after 4096 calls and not earlier, and [msb_rising] is first true
    after call 2048. *)
Theorem clock_advances_phase :
  (forall o : osc,
     let a' := (accumulator o + freq o) mod 2 ^ 24 in
     let rising n := negb (Z.testbit (accumulator o) n) && Z.testbit a' n in
     let o' := set_msb_rising (rising 23) (set_accumulator a' o) in
     accumulator (clock o) = (if test o then accumulator o else a') /\
     (test o = false ->
      msb_rising (clock o) = rising 23 /\
      clock o = if rising 19 then clock_noise true o' else o')) /\
  (forall o : osc,
     freq o = 4096 -> accumulator o = 0 -> test o = false ->
     accumulator (Nat.iter 4096 clock o) = 0 /\
     (forall n, (0 < n < 4096)%nat -> accumulator (Nat.iter n clock o) <> 0) /\
     (forall n, (0 < n < 2048)%nat -> msb_rising (Nat.iter n clock o) = false) /\
     msb_rising (Nat.iter 2048 clock o) = true).
Proof.
  split.
  - intros o a' rising o'. split.
    + destruct (test o) eqn:Ht.
      * now apply clock_held_accumulator.
      * now apply clock_running_accumulator.
    + intros Ht. split.
      * now apply clock_running_msb_rising.
      * now apply clock_running.
  - intros o Hf Ha Ht.
    assert (Hacc : forall n : nat,
              accumulator (Nat.iter n clock o) = (4096 * Z.of_nat n) mod 2 ^ 24).
    { intros n. rewrite iter_clock_accumulator by (first [exact Ht | rewrite Ha; lia]).
      rewrite Ha, Hf. f_equal. lia. }
    assert (Hmsb : forall n : nat,
              msb_rising (Nat.iter (S n) clock o)
              = negb (Z.testbit ((4096 * Z.of_nat n) mod 2 ^ 24) 23)
                && Z.testbit ((4096 * Z.of_nat (S n)) mod 2 ^ 24) 23).
    { intros n. rewrite Nat.iter_succ.
      destruct (iter_clock_frame n o) as [Hfn Htn].
      rewrite clock_running_msb_rising by congruence.
      rewrite Hfn, Hf, !Hacc. rewrite Z.add_mod_idemp_l by lia.
      do 3 f_equal. lia. }
    repeat split.
    + rewrite Hacc. reflexivity.
    + intros n Hn. rewrite Hacc.
      rewrite Z.mod_small by lia. lia.
    + intros [|n] Hn; [lia|]. rewrite Hmsb.
      rewrite (testbit_23_below ((4096 * Z.of_nat (S n)) mod 2 ^ 24)).
      * apply andb_false_r.
      * rewrite Z.mod_small by lia. lia.
    + change 2048%nat with (S 2047). rewrite Hmsb.
      reflexivity.
Qed.

(** ** Hard sync *)

Lemma synchronize_eq (this : nat) (st : voices F) (o d s : osc) :
  st !! this = Some o ->
  st !! sync_dest o = Some d ->
  st !! sync_source o = Some s ->
  synchronize this st
  = Some (if msb_rising o && sync d && negb (sync o && msb_rising s)
          then <[sync_dest o := set_accumulator 0 d]> st else st).
Proof.
  intros Ho Hd Hs. unfold synchronize, sync_and_source_rising.
  rewrite Ho, Hd, Hs.
  destruct (msb_rising o), (sync d), (sync o), (msb_rising s); reflexivity.
Qed.

(** C2. [synchronize] on a voice sets the accumulator of its sync
    destination to zero exactly when its own [msb_rising] is set, the
    destination has SYNC set, and it is not itself synced on this cycle
    (own SYNC set and its source's [msb_rising] set); otherwise, and for
    every other voice and field, nothing changes. In a consistently wired
    network, two voices A and B, the destination of A being B and the
    destination of B being A, both with SYNC set and both MSBs rising on
    the same cycle, do not reset each other. *)
Theorem synchronize_resets_destination :
  (forall (this : nat) (st : voices F) (o d s : osc),
     st !! this = Some o ->
     st !! sync_dest o = Some d ->
     st !! sync_source o = Some s ->
     let reset := msb_rising o && sync d && negb (sync o && msb_rising s) in
     exists st',
       synchronize this st = Some st' /\
       st' !! sync_dest o = Some (if reset then set_accumulator 0 d else d) /\
       (forall j, j <> sync_dest o -> st' !! j = st !! j)) /\
  (forall (st : voices F) (a b : nat) (oa ob : osc),
     wired st ->
     st !! a = Some oa -> st !! b = Some ob ->
     sync_dest oa = b -> sync_dest ob = a ->
     sync oa = true -> sync ob = true ->
     msb_rising oa = true -> msb_rising ob = true ->
     synchronize a st = Some st /\ synchronize b st = Some st).
Proof.
  split.
  - intros this st o d s Ho Hd Hs reset.
    rewrite (synchronize_eq this st o d s Ho Hd Hs). fold reset.
    destruct reset.
    + eexists. split; [reflexivity|]. split.
      * apply list_lookup_insert_eq. now apply lookup_lt_Some with d.
      * intros j Hj. now apply list_lookup_insert_ne.
    + eexists. split; [reflexivity|]. now split.
  - intros st a b oa ob Hwired Ha Hb Hdab Hdba Hsa Hsb Hma Hmb.
    assert (Hsrc_a : sync_source oa = b)
      by (apply (Hwired b ob oa); congruence).
    assert (Hsrc_b : sync_source ob = a)
      by (apply (Hwired a oa ob); congruence).
    split.
    + rewrite (synchronize_eq a st oa ob ob) by congruence.
      now rewrite Hma, Hsb, Hsa, Hmb.
    + rewrite (synchronize_eq b st ob oa oa) by congruence.
      now rewrite Hmb, Hsa, Hsb, Hma.
Qed.

(** ** Output selection: the codes without a table *)

(** C3. [output] returns [previous_dac] for waveform 0, so that it does
    not depend on the accumulator or on any other state; it returns the
    cached noise sample for waveform 8 and the zero level [wave_zero] for
    waveforms 9 to 15. *)
Theorem output_without_table :
  forall (this : nat) (st : voices F) (o : osc),
    st !! this = Some o ->
    (waveform o = 0 ->
     output this st = Some (previous_dac o) /\
     forall (st' : voices F) (o' : osc),
       st' !! this = Some o' -> waveform o' = 0 ->
       previous_dac o' = previous_dac o ->
       output this st' = output this st) /\
    (waveform o = 8 -> output this st = Some (noise_output_cached_dac o)) /\
    (9 <= waveform o <= 15 -> output this st = Some (wave_zero o)).
Proof.
  intros this st o Ho. unfold output. rewrite Ho.
  split; [|split].
  - intros Hw. split.
    + now rewrite Hw.
    + intros st' o' Ho' Hw' Hp. rewrite Ho', Hw', Hw. cbn. now f_equal.
  - intros Hw. now rewrite Hw.
  - intros Hw. destruct (Z.eqb_spec (waveform o) 0); [lia|].
    destruct (Z.eqb_spec (waveform o) 8); [lia|].
    destruct (Z.ltb_spec 8 (waveform o)); [reflexivity|lia].
Qed.

(** ** Output selection: the table access of waveforms 1 to 7 *)

Lemma wrap_small (x : Z) : 0 <= x < 2 ^ reg_bits -> wrap x = x.
Proof. intros H. unfold wrap. now apply Z.mod_small. Qed.

Lemma lxor_below (n a b : Z) :
  0 <= n -> 0 <= a < 2 ^ n -> 0 <= b < 2 ^ n -> 0 <= Z.lxor a b < 2 ^ n.
Proof.
  intros Hn Ha Hb.
  assert (H0 : 0 <= Z.lxor a b) by (apply Z.lxor_nonneg; lia).
  split; [assumption|].
  apply (Z.bounded_iff_bits_nonneg n); [assumption..|].
  intros l Hl. rewrite Z.lxor_spec.
  rewrite (proj1 (Z.bounded_iff_bits_nonneg n a Hn (proj1 Ha)) (proj2 Ha) l Hl).
  rewrite (proj1 (Z.bounded_iff_bits_nonneg n b Hn (proj1 Hb)) (proj2 Hb) l Hl).
  reflexivity.
Qed.

Lemma phase_below (a : Z) : 0 <= a < 2 ^ 24 -> 0 <= Z.shiftr a 12 < 4096.
Proof.
  intros H. rewrite Z.shiftr_div_pow2 by lia. split.
  - apply Z.div_pos; lia.
  - apply Z.div_lt_upper_bound; lia.
Qed.

Lemma lxor_pow2_bits (x n i : Z) :
  0 <= n -> 0 <= i ->
  Z.testbit (Z.lxor x (2 ^ n)) i
  = if i =? n then negb (Z.testbit x n) else Z.testbit x i.
Proof.
  intros Hn Hi. rewrite Z.lxor_spec, Z.pow2_bits_eqb by assumption.
  rewrite (Z.eqb_sym n i).
  destruct (Z.eqb_spec i n) as [->|Hne].
  - now destruct (Z.testbit x n).
  - now rewrite xorb_false_r.
Qed.

(** The waveforms among 1 .. 7 with [(waveform & 3) == 1]: the triangle
    bit set and the sawtooth bit clear. *)
Lemma triangle_without_sawtooth (w : Z) :
  1 <= w <= 7 -> (Z.land w 3 =? 1) = ((w =? 1) || (w =? 5)).
Proof.
  intros H.
  assert (w = 1 \/ w = 2 \/ w = 3 \/ w = 4 \/ w = 5 \/ w = 6 \/ w = 7)
    as Hw by lia.
  repeat (destruct Hw as [-> | Hw]; [reflexivity|]). now subst w.
Qed.

Lemma ring_mod_flips_eq (st : voices F) (o s : osc) :
  st !! sync_source o = Some s -> 1 <= waveform o <= 7 ->
  ring_mod_flips st o
  = Some (((waveform o =? 1) || (waveform o =? 5)) && ring_mod o
          && Z.testbit (accumulator s) 23).
Proof.
  intros Hs Hw. unfold ring_mod_flips. rewrite Hs.
  rewrite triangle_without_sawtooth by assumption.
  change 0x800000 with (2 ^ 23). rewrite nonzero_land_pow2 by lia.
  destruct ((waveform o =? 1) || (waveform o =? 5)), (ring_mod o); reflexivity.
Qed.

Lemma wftable_index_eq (st : voices F) (o s : osc) :
  st !! sync_source o = Some s -> 1 <= waveform o <= 7 ->
  let phase := Z.shiftr (accumulator o) 12 in
  wftable_index st o
  = Some ((if (4 <=? waveform o) && (test o || (pw o <=? phase))
           then waveform o + 3 else waveform o - 1),
          (if ((waveform o =? 1) || (waveform o =? 5)) && ring_mod o
              && Z.testbit (accumulator s) 23
           then Z.lxor phase 0x800 else phase)).
Proof.
  intros Hs Hw phase. unfold wftable_index.
  rewrite (ring_mod_flips_eq st o s Hs Hw). fold phase.
  unfold pulse_variant. do 2 f_equal.
  destruct ((4 <=? waveform o) && (test o || (pw o <=? phase)));
    apply wrap_small; unfold reg_bits; lia.
Qed.

(** C4, as the code has it. For the pulse waveforms 4 to 7 the table is
    [waveform + 3] (tables 7 to 10) exactly when TEST is held or the phase,
    the top 12 bits of the accumulator, has reached PW, and
    [waveform - 1] (tables 3 to 6) otherwise; with PW = 2048 and TEST
    clear, phase 2047 reads table [waveform - 1] and phase 2048 reads table
    [waveform + 3]. *)
Theorem pulse_selects_table :
  forall (st : voices F) (o s : osc),
    st !! sync_source o = Some s ->
    4 <= waveform o <= 7 ->
    let phase := Z.shiftr (accumulator o) 12 in
    let gated := test o || (pw o <=? phase) in
    exists t p,
      wftable_index st o = Some (t, p) /\
      t = (if gated then waveform o + 3 else waveform o - 1) /\
      (gated = true <-> 7 <= t <= 10) /\
      (gated = false <-> 3 <= t <= 6) /\
      (test o = false -> pw o = 2048 ->
       (phase = 2047 -> t = waveform o - 1) /\
       (phase = 2048 -> t = waveform o + 3)).
Proof.
  intros st o s Hs Hw phase gated.
  rewrite (wftable_index_eq st o s Hs) by lia. fold phase.
  destruct (Z.leb_spec 4 (waveform o)); [|lia]. cbn [andb]. fold gated.
  do 2 eexists. split; [reflexivity|]. split; [reflexivity|].
  split; [|split].
  - destruct gated; split; intros; (lia || congruence).
  - destruct gated; split; intros; (lia || congruence).
  - intros Ht Hpw. subst gated. rewrite Ht, Hpw. cbn [orb].
    split; intros ->; reflexivity.
Qed.

(** C5, as the code has it. For the waveforms 1 to 7, [output] flips the
    top bit (bit 11) of the 12-bit phase before the table access exactly
    when the waveform is 1 or 5 (triangle bit set, sawtooth bit clear), ring
    modulation is on and bit 23 of the sync source's accumulator is set. *)
Theorem ring_mod_flips_phase :
  forall (st : voices F) (o s : osc),
    st !! sync_source o = Some s ->
    1 <= waveform o <= 7 ->
    let phase := Z.shiftr (accumulator o) 12 in
    let flip := ((waveform o =? 1) || (waveform o =? 5)) && ring_mod o
                && Z.testbit (accumulator s) 23 in
    (exists t,
       wftable_index st o
       = Some (t, if flip then Z.lxor phase 0x800 else phase)) /\
    (forall i, 0 <= i ->
       Z.testbit (Z.lxor phase 0x800) i
       = if i =? 11 then negb (Z.testbit phase 11) else Z.testbit phase i).
Proof.
  intros st o s Hs Hw phase flip. split.
  - rewrite (wftable_index_eq st o s Hs Hw). fold phase flip.
    eexists. reflexivity.
  - intros i Hi. change 0x800 with (2 ^ 11). now apply lxor_pow2_bits.
Qed.

(** C10. For the waveforms 1 to 7 and an accumulator below 2^24 the
    table access of [output] is within [wftable[11][4096]]: the phase is
    below 4096, also after the ring modulation, and the table is
    [waveform - 1] or, for a pulse waveform only, [waveform + 3], hence
    between 0 and 10; [output] returns that entry. *)
Theorem output_table_access_in_bounds :
  forall (this : nat) (st : voices F) (o s : osc),
    st !! this = Some o ->
    st !! sync_source o = Some s ->
    1 <= waveform o <= 7 ->
    0 <= accumulator o < 2 ^ 24 ->
    0 <= Z.shiftr (accumulator o) 12 < 4096 /\
    exists t p,
      wftable_index st o = Some (t, p) /\
      (t = waveform o - 1 \/ (t = waveform o + 3 /\ 4 <= waveform o)) /\
      0 <= t <= 10 /\ 0 <= p < 4096 /\
      output this st = Some (wftable t p).
Proof.
  intros this st o s Ho Hs Hw Ha.
  pose proof (phase_below _ Ha) as Hp.
  split; [assumption|].
  unfold output. rewrite Ho.
  destruct (Z.eqb_spec (waveform o) 0); [lia|].
  destruct (Z.eqb_spec (waveform o) 8); [lia|].
  destruct (Z.ltb_spec 8 (waveform o)); [lia|].
  rewrite (wftable_index_eq st o s Hs Hw).
  set (t := if (4 <=? waveform o) && _ then _ else _).
  set (p := if _ && Z.testbit (accumulator s) 23 then _ else _).
  assert (Ht : (t = waveform o - 1 \/ (t = waveform o + 3 /\ 4 <= waveform o))).
  { subst t. destruct (Z.leb_spec 4 (waveform o)); cbn [andb].
    - destruct (test o || _); [right|left]; lia.
    - now left. }
  assert (Hp' : 0 <= p < 4096).
  { subst p. destruct (_ && Z.testbit (accumulator s) 23); [|assumption].
    apply (lxor_below 12); lia. }
  exists t, p. repeat (split; [first [reflexivity | assumption | lia]|]).
  unfold wftable_at.
  destruct (Z.leb_spec 0 t); [|lia]. destruct (Z.ltb_spec t 11); [|lia].
  destruct (Z.leb_spec 0 p); [|lia]. destruct (Z.ltb_spec p 4096); [|lia].
  reflexivity.
Qed.

(** ** The noise output word and its analog sample *)

Lemma outputN___noise_word (o : osc) :
  outputN___ o = noise_word (shift_register o).
Proof.
  unfold outputN___, noise_word. cbn [fold_right noise_taps fst snd].
  rewrite (land_mask _ 0x400000 22), (land_mask _ 0x100000 20),
    (land_mask _ 0x010000 16), (land_mask _ 0x002000 13),
    (land_mask _ 0x000800 11), (land_mask _ 0x000080 7),
    (land_mask _ 0x000010 4), (land_mask _ 0x000004 2)
    by (lia || reflexivity).
  destruct (Z.testbit (shift_register o) 22), (Z.testbit (shift_register o) 20),
    (Z.testbit (shift_register o) 16), (Z.testbit (shift_register o) 13),
    (Z.testbit (shift_register o) 11), (Z.testbit (shift_register o) 7),
    (Z.testbit (shift_register o) 4), (Z.testbit (shift_register o) 2);
    reflexivity.
Qed.

Lemma noise_word_bits (r : Z) :
  (forall tap out, In (tap, out) noise_taps ->
     Z.testbit (noise_word r) out = Z.testbit r tap) /\
  noise_word r mod 16 = 0 /\
  0 <= noise_word r < 4096.
Proof.
  unfold noise_word. cbn [fold_right noise_taps fst snd].
  split; [|split].
  - intros tap out Hin. cbn [In] in Hin.
    repeat (destruct Hin as [Heq | Hin];
            [injection Heq as <- <-;
             destruct (Z.testbit r 22), (Z.testbit r 20), (Z.testbit r 16),
               (Z.testbit r 13), (Z.testbit r 11), (Z.testbit r 7),
               (Z.testbit r 4), (Z.testbit r 2); reflexivity|]).
    contradiction.
  - destruct (Z.testbit r 22), (Z.testbit r 20), (Z.testbit r 16),
      (Z.testbit r 13), (Z.testbit r 11), (Z.testbit r 7),
      (Z.testbit r 4), (Z.testbit r 2); reflexivity.
  - destruct (Z.testbit r 22), (Z.testbit r 20), (Z.testbit r 16),
      (Z.testbit r 13), (Z.testbit r 11), (Z.testbit r 7),
      (Z.testbit r 4), (Z.testbit r 2); cbn; lia.
Qed.

Lemma noise_word_low23 (r : Z) : noise_word (r mod 2 ^ 23) = noise_word r.
Proof.
  unfold noise_word. cbn [fold_right noise_taps fst snd].
  now rewrite !Z.mod_pow2_bits_low by lia.
Qed.

(** The loop over the DAC bits adds the weights of the set bits. *)
Lemma dac_loop_on (w : Z) (l : list nat) (v : F) :
  fold_left
    (fun v i => if nonzero (Z.land w (Z.shiftl 1 i)) then fadd v (dac i) else v)
    (map Z.of_nat l) v
  = fold_left fadd
      (map dac (List.filter (fun i => Z.testbit w i) (map Z.of_nat l))) v.
Proof.
  revert v. induction l as [|i l IH]; intros v; [reflexivity|].
  cbn [map fold_left List.filter].
  rewrite Z.shiftl_1_l, nonzero_land_pow2 by lia.
  destruct (Z.testbit w (Z.of_nat i)); cbn [map fold_left]; apply IH.
Qed.

Lemma dac_loop_dac_sum (w : Z) (v : F) : dac_loop w v = dac_sum fadd dac v w.
Proof. apply dac_loop_on. Qed.

Lemma recompute_noise_output_eq (o : osc) :
  let o' := recompute_noise_output o in
  shift_register o' = shift_register o /\
  noise_output_cached o' = noise_word (shift_register o) /\
  noise_output_cached_dac o'
  = dac_sum fadd dac (wave_zero o) (noise_word (shift_register o)).
Proof.
  unfold recompute_noise_output.
  cbn [shift_register noise_output_cached noise_output_cached_dac wave_zero
       set_noise_output_cached set_noise_output_cached_dac].
  rewrite dac_loop_dac_sum, outputN___noise_word. now repeat split.
Qed.

Lemma clock_noise_recomputes (c : bool) (o : osc) :
  let o' := clock_noise c o in
  noise_output_cached o' = noise_word (shift_register o') /\
  noise_output_cached_dac o'
  = dac_sum fadd dac (wave_zero o) (noise_output_cached o').
Proof.
  unfold clock_noise.
  match goal with
  | |- context [recompute_noise_output ?x] =>
      destruct (recompute_noise_output_eq x) as (Hr & Hw & Hd);
      assert (Hz : wave_zero x = wave_zero o)
        by (destruct c; cbn; destruct (8 <? waveform o); reflexivity)
  end.
  cbv zeta in *. rewrite Hw, Hd, Hr, Hz. now split.
Qed.

Lemma wrap_int_small (x : Z) : - 2 ^ 31 <= x < 2 ^ 31 -> wrap_int x = x.
Proof. intros H. unfold wrap_int. rewrite Z.mod_small; lia. Qed.

(** The [clock] call on which the overwrite delay runs out. *)
Lemma clock_expiry (o : osc) :
  test o = true -> noise_overwrite_delay o = 1 ->
  clock o = recompute_noise_output
              (set_shift_register (Z.lor (shift_register o) 0x7ffffc)
                 (set_noise_overwrite_delay 0 o)).
Proof.
  intros Ht Hd. unfold clock. rewrite Ht, Hd. reflexivity.
Qed.

(** C7. Whenever the noise output is recomputed, by [clock_noise] or by
    the [clock] call on which the overwrite delay runs out, the cached
    12-bit word holds the register bits 22, 20, 16, 13, 11, 7, 4, 2 at the
    positions 11, 10, 9, 8, 7, 6, 5, 4 and zeros in its low four bits, and
    the cached sample is [wave_zero] plus [dac[i]] for every bit [i] set in
    that word, added from bit 0 upwards. *)
Theorem noise_output_is_tap_permutation :
  (forall r : Z,
     (forall tap out, In (tap, out) noise_taps ->
        Z.testbit (noise_word r) out = Z.testbit r tap) /\
     noise_word r mod 16 = 0 /\ 0 <= noise_word r < 4096) /\
  (forall (c : bool) (o : osc),
     let o' := clock_noise c o in
     noise_output_cached o' = noise_word (shift_register o') /\
     noise_output_cached_dac o'
     = dac_sum fadd dac (wave_zero o) (noise_output_cached o')) /\
  (forall o : osc,
     test o = true -> noise_overwrite_delay o = 1 ->
     let o' := clock o in
     noise_output_cached o' = noise_word (shift_register o') /\
     noise_output_cached_dac o'
     = dac_sum fadd dac (wave_zero o) (noise_output_cached o')).
Proof.
  split; [exact noise_word_bits|]. split; [exact clock_noise_recomputes|].
  intros o Ht Hd o'. subst o'. rewrite (clock_expiry o Ht Hd).
  match goal with
  | |- context [recompute_noise_output ?x] =>
      destruct (recompute_noise_output_eq x) as (Hr & Hw & Hs)
  end.
  cbv zeta in *. rewrite Hw, Hs, Hr. now split.
Qed.

(** ** The shift register *)

Lemma b2z_bits (b : bool) (i : Z) :
  0 <= i -> Z.testbit (Z.b2z b) i = b && (i =? 0).
Proof.
  intros Hi. destruct b; cbn [Z.b2z andb].
  - change 1 with (2 ^ 0). rewrite Z.pow2_bits_eqb by lia. apply Z.eqb_sym.
  - apply Z.bits_0.
Qed.

Lemma lor_double_bit (a : Z) (b : bool) :
  Z.lor (2 * a) (Z.b2z b) = 2 * a + Z.b2z b.
Proof.
  pose proof (Z.add_lor_land (2 * a) (Z.b2z b)) as H.
  assert (Z.land (2 * a) (Z.b2z b) = 0) as H0; [|lia].
  destruct b; [|apply Z.land_0_r].
  change (Z.b2z true) with (2 ^ 0). rewrite land_pow2 by lia.
  now rewrite Z.testbit_even_0.
Qed.

(** The feedback bit [((shift_register >> 22) ^ (shift_register >> 17)) & 0x1]. *)
Lemma feedback_bit (r : Z) :
  Z.land (Z.lxor (Z.shiftr r 22) (Z.shiftr r 17)) 0x1
  = Z.b2z (xorb (Z.testbit r 22) (Z.testbit r 17)).
Proof.
  rewrite (land_mask _ 0x1 0) by (lia || reflexivity).
  rewrite Z.lxor_spec, !Z.shiftr_spec by lia. cbn [Z.add].
  now destruct (xorb _ _).
Qed.

(** The register as [clock_noise] stores it. *)
Lemma clock_noise_register (c : bool) (o : osc) :
  let r := shift_register o in
  let r1 := if c
            then Z.lor (wrap (Z.shiftl r 1))
                       (Z.b2z (xorb (Z.testbit r 22) (Z.testbit r 17)))
            else r in
  shift_register (clock_noise c o)
  = if 8 <? waveform o then Z.land r1 noise_clear_mask else r1.
Proof.
  unfold clock_noise.
  match goal with
  | |- context [recompute_noise_output ?x] =>
      destruct (recompute_noise_output_eq x) as (-> & _)
  end.
  destruct c; cbn [waveform shift_register set_shift_register];
    rewrite ?feedback_bit; destruct (8 <? waveform o); reflexivity.
Qed.

Lemma testbit_wrap (x i : Z) :
  Z.testbit (wrap x) i = (i <? reg_bits) && Z.testbit x i.
Proof. unfold wrap. apply Z.testbit_mod_pow2. unfold reg_bits. lia. Qed.

(** Bit [i] of the register after the shift: the feedback at bit 0, the
    bit below elsewhere. *)
Lemma shifted_bits (r i : Z) :
  0 <= i ->
  Z.testbit (Z.lor (wrap (Z.shiftl r 1))
                   (Z.b2z (xorb (Z.testbit r 22) (Z.testbit r 17)))) i
  = if i =? 0 then xorb (Z.testbit r 22) (Z.testbit r 17)
    else (i <? reg_bits) && Z.testbit r (i - 1).
Proof.
  intros Hi. rewrite Z.lor_spec, testbit_wrap, Z.shiftl_spec, b2z_bits by lia.
  destruct (Z.eqb_spec i 0) as [->|Hne].
  - rewrite Z.testbit_neg_r by lia. now rewrite andb_true_r.
  - now rewrite andb_false_r, orb_false_r.
Qed.

Lemma lfsr23_step_bits (x i : Z) :
  0 <= i ->
  Z.testbit (lfsr23_step x) i
  = if i =? 0 then xorb (Z.testbit x 22) (Z.testbit x 17)
    else (i <? 23) && Z.testbit x (i - 1).
Proof.
  intros Hi. unfold lfsr23_step.
  rewrite Z.lor_spec, Z.testbit_mod_pow2, Z.shiftl_spec, b2z_bits by lia.
  destruct (Z.eqb_spec i 0) as [->|Hne].
  - rewrite Z.testbit_neg_r by lia. now rewrite andb_true_r.
  - now rewrite andb_false_r, orb_false_r.
Qed.

Lemma lfsr23_step_below (x : Z) : 0 <= lfsr23_step x < 2 ^ 23.
Proof.
  assert (H0 : 0 <= lfsr23_step x).
  { unfold lfsr23_step. apply Z.lor_nonneg. split.
    - apply Z.mod_pos_bound. lia.
    - now destruct (xorb _ _). }
  split; [assumption|].
  apply (Z.bounded_iff_bits_nonneg 23); [lia | assumption |].
  intros l Hl. rewrite lfsr23_step_bits by lia.
  destruct (Z.eqb_spec l 0); [lia|].
  destruct (Z.ltb_spec l 23); [lia|reflexivity].
Qed.

(** The low 23 bits of the stored register follow the 23-bit register. *)
Lemma shifted_low23 (r : Z) :
  Z.lor (wrap (Z.shiftl r 1))
        (Z.b2z (xorb (Z.testbit r 22) (Z.testbit r 17))) mod 2 ^ 23
  = lfsr23_step (r mod 2 ^ 23).
Proof.
  apply Z.bits_inj'. intros i Hi.
  rewrite Z.testbit_mod_pow2, shifted_bits, lfsr23_step_bits by lia.
  rewrite !Z.mod_pow2_bits_low by lia.
  destruct (Z.eqb_spec i 0) as [->|Hne]; [reflexivity|].
  rewrite Z.testbit_mod_pow2 by lia. unfold reg_bits.
  destruct (Z.ltb_spec i 23); [|reflexivity].
  destruct (Z.ltb_spec i 32); [|lia].
  destruct (Z.ltb_spec (i - 1) 23); [|lia]. reflexivity.
Qed.

Lemma noise_clear_mask_bits (i : Z) :
  0 <= i -> Z.testbit noise_clear_mask i = (i <? 23) && negb (is_tap i).
Proof.
  intros Hi. destruct (Z.ltb_spec i 23) as [Hlt|Hge]; cbn [andb].
  - rewrite <- (Z2Nat.id i) by lia.
    assert (Hn : (Z.to_nat i < 23)%nat) by lia.
    generalize dependent (Z.to_nat i). intros n Hn.
    do 23 (destruct n as [|n]; [reflexivity|]). lia.
  - apply (Z.bounded_iff_bits_nonneg 23 noise_clear_mask); [lia | | | assumption];
      vm_compute; [discriminate | reflexivity].
Qed.

Lemma is_tap_iff (i : Z) :
  is_tap i = true <-> exists out, In (i, out) noise_taps.
Proof.
  unfold is_tap. rewrite existsb_exists. split.
  - intros ([tap out] & Hin & Heq). cbn [fst] in Heq.
    apply Z.eqb_eq in Heq. subst tap. now exists out.
  - intros (out & Hin). exists (i, out). split; [assumption|].
    apply Z.eqb_refl.
Qed.

(** C6, as the code has it. One step of the noise generator takes the
    feedback from bits 22 and 17, moves the register up by one position
    and puts the feedback at bit 0, without reducing the stored value to 23
    bits: from a value [r] below 2^23 with a waveform of at most 8 it stores
    [2 r + feedback], below 2^24. The low 23 bits of the stored value are
    the step of the 23-bit register on the low 23 bits before, with the
    output taps cleared when the waveform is above 8 (the stored value is
    then below 2^23), and the noise output reads these 23 bits only. *)
Theorem noise_step_low_bits :
  forall o : osc,
    let r := shift_register o in
    let feedback := xorb (Z.testbit r 22) (Z.testbit r 17) in
    let r' := shift_register (clock_noise true o) in
    r' mod 2 ^ 23
    = (if 8 <? waveform o
       then Z.land (lfsr23_step (r mod 2 ^ 23)) noise_clear_mask
       else lfsr23_step (r mod 2 ^ 23)) /\
    0 <= lfsr23_step (r mod 2 ^ 23) < 2 ^ 23 /\
    noise_output_cached (clock_noise true o) = noise_word (r' mod 2 ^ 23) /\
    (8 < waveform o -> 0 <= r' < 2 ^ 23) /\
    (waveform o <= 8 -> 0 <= r < 2 ^ 23 ->
     r' = 2 * r + Z.b2z feedback /\ 0 <= r' < 2 ^ 24).
Proof.
  intros o r feedback r'.
  pose proof (clock_noise_register true o) as Hr. cbv zeta in Hr.
  fold r feedback r' in Hr.
  split; [|split; [|split; [|split]]].
  - rewrite Hr, <- shifted_low23. fold feedback.
    destruct (8 <? waveform o); [|reflexivity].
    apply Z.bits_inj'. intros i Hi.
    rewrite Z.land_spec, !Z.testbit_mod_pow2, Z.land_spec by lia.
    rewrite noise_clear_mask_bits by lia. apply andb_assoc.
  - apply lfsr23_step_below.
  - rewrite noise_word_low23. apply clock_noise_recomputes.
  - intros Hw. rewrite Hr. destruct (Z.ltb_spec 8 (waveform o)); [|lia].
    assert (H0 : 0 <= Z.land
                   (Z.lor (wrap (Z.shiftl r 1)) (Z.b2z feedback))
                   noise_clear_mask).
    { apply Z.land_nonneg. right. vm_compute. discriminate. }
    split; [assumption|].
    apply (Z.bounded_iff_bits_nonneg 23); [lia | assumption |].
    intros l Hl. rewrite Z.land_spec, noise_clear_mask_bits by lia.
    destruct (Z.ltb_spec l 23); [lia|]. apply andb_false_r.
  - intros Hw Hrange. rewrite Hr.
    destruct (Z.ltb_spec 8 (waveform o)); [lia|].
    rewrite Z.shiftl_mul_pow2, wrap_small by (unfold reg_bits; lia).
    replace (r * 2 ^ 1) with (2 * r) by lia. rewrite lor_double_bit.
    split; [reflexivity|]. destruct feedback; cbn [Z.b2z]; lia.
Qed.

(** C8. With a waveform above 8, every call of the noise generator
    clears the register bits 22, 20, 16, 13, 11, 7, 4 and 2, the taps of
    the noise output, and leaves the other bits of the 23-bit register as
    they are after the shift; the noise word recomputed in the same call is
    zero, and its sample is the zero level. *)
Theorem combined_noise_clears_taps :
  forall (c : bool) (o : osc),
    8 < waveform o ->
    let r := shift_register o in
    let r1 := if c then lfsr23_step (r mod 2 ^ 23) else r mod 2 ^ 23 in
    let o' := clock_noise c o in
    (forall i, 0 <= i ->
       Z.testbit (shift_register o') i = negb (is_tap i) && Z.testbit r1 i) /\
    (forall tap out, In (tap, out) noise_taps ->
       Z.testbit (shift_register o') tap = false) /\
    noise_output_cached o' = 0 /\
    noise_output_cached_dac o' = wave_zero o.
Proof.
  intros c o Hw r r1 o'.
  pose proof (clock_noise_register c o) as Hr. cbv zeta in Hr.
  fold r o' in Hr. destruct (Z.ltb_spec 8 (waveform o)); [|lia].
  assert (Hbits : forall i, 0 <= i ->
            Z.testbit (shift_register o') i
            = negb (is_tap i) && Z.testbit r1 i).
  { intros i Hi. rewrite Hr, Z.land_spec, noise_clear_mask_bits by lia.
    subst r1. destruct c.
    - rewrite <- shifted_low23, Z.testbit_mod_pow2 by lia.
      destruct (i <? 23), (is_tap i); cbn [andb negb];
        rewrite ?andb_false_r, ?andb_true_r; reflexivity.
    - rewrite Z.testbit_mod_pow2 by lia.
      destruct (i <? 23), (is_tap i); cbn [andb negb];
        rewrite ?andb_false_r, ?andb_true_r; reflexivity. }
  assert (Htaps : forall tap out, In (tap, out) noise_taps ->
            Z.testbit (shift_register o') tap = false).
  { intros tap out Hin.
    assert (Ht : is_tap tap = true) by (apply is_tap_iff; now exists out).
    assert (0 <= tap).
    { cbn [In noise_taps] in Hin.
      repeat (destruct Hin as [Heq | Hin]; [injection Heq as <- _; lia|]).
      contradiction. }
    rewrite Hbits by assumption. now rewrite Ht. }
  assert (Hword : noise_word (shift_register o') = 0).
  { unfold noise_word. cbn [fold_right noise_taps fst snd].
    rewrite (Htaps 22 11), (Htaps 20 10), (Htaps 16 9), (Htaps 13 8),
      (Htaps 11 7), (Htaps 7 6), (Htaps 4 5), (Htaps 2 4)
      by (cbn [In noise_taps]; repeat first [left; reflexivity | right]).
    reflexivity. }
  destruct (clock_noise_recomputes c o) as [Hcached Hdac]. fold o' in Hcached, Hdac.
  repeat split; try assumption.
  - now rewrite Hcached.
  - rewrite Hdac, Hcached, Hword. reflexivity.
Qed.

(** ** The overwrite delay under TEST *)

Lemma clock_counting (o : osc) :
  test o = true -> 1 < noise_overwrite_delay o < 2 ^ 31 ->
  clock o = set_noise_overwrite_delay (noise_overwrite_delay o - 1) o.
Proof.
  intros Ht Hd. unfold clock. rewrite Ht.
  unfold nonzero. destruct (Z.eqb_spec (noise_overwrite_delay o) 0); [lia|].
  cbn [negb noise_overwrite_delay set_noise_overwrite_delay].
  rewrite wrap_int_small by lia.
  destruct (Z.eqb_spec (noise_overwrite_delay o - 1) 0); [lia|reflexivity].
Qed.

Lemma clock_expired (o : osc) :
  test o = true -> noise_overwrite_delay o = 0 -> clock o = o.
Proof. intros Ht Hd. unfold clock. now rewrite Ht, Hd. Qed.

Lemma iter_clock_counting (k : nat) (o : osc) :
  test o = true -> Z.of_nat k < noise_overwrite_delay o < 2 ^ 31 ->
  Nat.iter k clock o
  = set_noise_overwrite_delay (noise_overwrite_delay o - Z.of_nat k) o.
Proof.
  intros Ht. induction k as [|k IH]; intros Hd.
  - replace (noise_overwrite_delay o - Z.of_nat 0)
      with (noise_overwrite_delay o) by lia.
    now destruct o.
  - rewrite Nat.iter_succ, IH by lia.
    rewrite clock_counting
      by (cbn [test noise_overwrite_delay set_noise_overwrite_delay];
          first [exact Ht | lia]).
    change (set_noise_overwrite_delay ?a (set_noise_overwrite_delay ?b o))
      with (set_noise_overwrite_delay a o).
    cbn [noise_overwrite_delay set_noise_overwrite_delay]. f_equal. lia.
Qed.

Lemma lor_overwrite_nonzero (r : Z) : Z.lor r 0x7ffffc <> 0.
Proof.
  intros H. assert (Hb : Z.testbit (Z.lor r 0x7ffffc) 2 = true).
  { rewrite Z.lor_spec. apply orb_true_r. }
  rewrite H in Hb. discriminate.
Qed.

(** C9. While TEST is held and the overwrite delay counts down from
    [d > 0], the register is left alone for the first [d - 1] calls of
    [clock]; call [d] brings the delay to zero and ORs 0x7ffffc into the
    register, whatever it held, so that the register is nonzero right after
    that call and in all later calls under TEST. *)
Theorem test_hold_overwrites_register :
  forall o : osc,
    test o = true ->
    0 < noise_overwrite_delay o < 2 ^ 31 ->
    let n := Z.to_nat (noise_overwrite_delay o) in
    (forall k, (k < n)%nat ->
       shift_register (Nat.iter k clock o) = shift_register o /\
       noise_overwrite_delay (Nat.iter k clock o)
       = noise_overwrite_delay o - Z.of_nat k) /\
    shift_register (Nat.iter n clock o) = Z.lor (shift_register o) 0x7ffffc /\
    noise_overwrite_delay (Nat.iter n clock o) = 0 /\
    (forall k, (n <= k)%nat -> shift_register (Nat.iter k clock o) <> 0).
Proof.
  intros o Ht Hd n.
  assert (Hlast : Nat.iter n clock o
                  = recompute_noise_output
                      (set_shift_register (Z.lor (shift_register o) 0x7ffffc)
                         (set_noise_overwrite_delay 0 o))).
  { assert (Hn : n = S (Nat.pred n)) by lia. rewrite Hn.
    rewrite Nat.iter_succ, iter_clock_counting by (assumption || lia).
    rewrite clock_expiry
      by (cbn [test noise_overwrite_delay set_noise_overwrite_delay];
          first [exact Ht | lia]).
    reflexivity. }
  assert (Hreg : shift_register (Nat.iter n clock o)
                 = Z.lor (shift_register o) 0x7ffffc).
  { rewrite Hlast.
    match goal with
    | |- context [recompute_noise_output ?x] =>
        now destruct (recompute_noise_output_eq x) as (-> & _)
    end. }
  assert (Hzero : noise_overwrite_delay (Nat.iter n clock o) = 0)
    by (now rewrite Hlast).
  split; [|split; [|split]]; try assumption.
  - intros k Hk. rewrite iter_clock_counting by (assumption || lia).
    now split.
  - intros k Hk. replace k with ((k - n) + n)%nat by lia.
    rewrite Nat.iter_add.
    assert (Hfix : forall m, Nat.iter m clock (Nat.iter n clock o)
                             = Nat.iter n clock o).
    { induction m as [|m IHm]; [reflexivity|].
      rewrite Nat.iter_succ, IHm. apply clock_expired; [|assumption].
      destruct (iter_clock_frame n o) as [_ ->]. exact Ht. }
    rewrite Hfix, Hreg. apply lor_overwrite_nonzero.
Qed.

(** * Further properties of the code *)

(** ** The accumulator over many cycles *)

(** X1. A free-running oscillator after [n] cycles: the accumulator is
    the start value plus [n] times FREQ, modulo 2^24, for every FREQ; in
    particular it is back at its start value after every multiple of 2^24
    cycles. *)
Theorem clock_n_cycles :
  forall (o : osc) (n : nat),
    test o = false -> 0 <= accumulator o < 2 ^ 24 ->
    accumulator (Nat.iter n clock o)
    = (accumulator o + Z.of_nat n * freq o) mod 2 ^ 24 /\
    accumulator (Nat.iter (n * Z.to_nat (2 ^ 24)) clock o) = accumulator o.
Proof.
  intros o n Ht Ha. split.
  - now apply iter_clock_accumulator.
  - rewrite iter_clock_accumulator by assumption.
    rewrite Nat2Z.inj_mul, Z2Nat.id by lia.
    replace (accumulator o + Z.of_nat n * 2 ^ 24 * freq o)
      with (accumulator o + Z.of_nat n * freq o * 2 ^ 24) by lia.
    rewrite Z_mod_plus_full. now apply Z.mod_small.
Qed.

Lemma clock_held_msb_rising (o : osc) :
  test o = true -> msb_rising (clock o) = msb_rising o.
Proof.
  intros Ht. unfold clock. rewrite Ht.
  destruct (nonzero _); [|reflexivity].
  cbn. now destruct (_ =? 0).
Qed.

(** X2. The accumulator is kept within 24 bits: a [clock] with TEST
    clear brings it below 2^24 whatever it held, and from a 24-bit value it
    stays one over any number of cycles, with TEST set or clear. *)
Theorem clock_keeps_accumulator_24_bits :
  forall o : osc,
    (test o = false -> accumulator_ok (clock o)) /\
    (accumulator_ok o -> forall n, accumulator_ok (Nat.iter n clock o)).
Proof.
  intros o. unfold accumulator_ok. split.
  - intros Ht. rewrite clock_running_accumulator by assumption.
    apply Z.mod_pos_bound. lia.
  - intros Ha n. induction n as [|n IH]; [exact Ha|].
    rewrite Nat.iter_succ.
    destruct (test (Nat.iter n clock o)) eqn:Ht.
    + now rewrite clock_held_accumulator.
    + rewrite clock_running_accumulator by assumption.
      apply Z.mod_pos_bound. lia.
Qed.

(** ** What [clock] leaves alone *)

Lemma same_controls_refl (o : osc) : same_controls o o.
Proof. unfold same_controls. now repeat split. Qed.

Lemma same_controls_trans (o1 o2 o3 : osc) :
  same_controls o1 o2 -> same_controls o2 o3 -> same_controls o1 o3.
Proof.
  unfold same_controls. intros H12 H23.
  decompose [and] H12. decompose [and] H23.
  repeat split; congruence.
Qed.

Lemma recompute_noise_output_controls (o : osc) :
  same_controls o (recompute_noise_output o).
Proof. unfold same_controls. now repeat split. Qed.

Lemma clock_noise_controls (c : bool) (o : osc) :
  same_controls o (clock_noise c o).
Proof.
  unfold clock_noise.
  eapply same_controls_trans; [|apply recompute_noise_output_controls].
  destruct c; cbn [waveform set_shift_register];
    destruct (8 <? waveform o); unfold same_controls; now repeat split.
Qed.

Lemma clock_controls (o : osc) : same_controls o (clock o).
Proof.
  unfold clock. destruct (test o).
  - destruct (nonzero _); [|apply same_controls_refl].
    cbn [noise_overwrite_delay set_noise_overwrite_delay].
    destruct (_ =? 0).
    + eapply same_controls_trans; [|apply recompute_noise_output_controls].
      unfold same_controls. now repeat split.
    + unfold same_controls. now repeat split.
  - match goal with |- context [if ?b then _ else _] => destruct b end.
    + eapply same_controls_trans; [|apply clock_noise_controls].
      unfold same_controls. now repeat split.
    + unfold same_controls. now repeat split.
Qed.

(** X3. Over any number of cycles [clock] changes neither the wiring
    nor FREQ, PW, the waveform, the control bits, the zero level or the
    previous output; while TEST is set it changes neither the accumulator
    nor [msb_rising], which keeps the value it had when TEST was set. *)
Theorem clock_keeps_controls :
  forall (o : osc) (n : nat),
    same_controls o (Nat.iter n clock o) /\
    (test o = true ->
     accumulator (Nat.iter n clock o) = accumulator o /\
     msb_rising (Nat.iter n clock o) = msb_rising o).
Proof.
  intros o n. induction n as [|n [IHc IHt]].
  - split; [apply same_controls_refl | now split].
  - rewrite Nat.iter_succ. split.
    + eapply same_controls_trans; [exact IHc | apply clock_controls].
    + intros Ht. destruct (IHt Ht) as [Ha Hm].
      assert (Htn : test (Nat.iter n clock o) = true).
      { destruct IHc as (_ & _ & _ & _ & _ & _ & -> & _). exact Ht. }
      rewrite clock_held_accumulator, clock_held_msb_rising by assumption.
      now split.
Qed.

(** ** The noise cache *)

Lemma recompute_noise_output_coherent (o : osc) :
  noise_cache_coherent fadd dac (recompute_noise_output o).
Proof.
  unfold noise_cache_coherent, recompute_noise_output.
  cbn [noise_output_cached noise_output_cached_dac wave_zero
       set_noise_output_cached set_noise_output_cached_dac].
  rewrite dac_loop_dac_sum. now split.
Qed.

Lemma clock_coherent (o : osc) :
  noise_cache_coherent fadd dac o -> noise_cache_coherent fadd dac (clock o).
Proof.
  intros Hc. unfold clock. destruct (test o).
  - destruct (nonzero _); [|exact Hc].
    cbn [noise_overwrite_delay set_noise_overwrite_delay].
    destruct (_ =? 0); [apply recompute_noise_output_coherent | exact Hc].
  - match goal with |- context [if ?b then _ else _] => destruct b end.
    + apply recompute_noise_output_coherent.
    + exact Hc.
Qed.

(** X4. The cached noise word and sample always belong to the current
    shift register: [clock_noise] leaves them so, and [clock] keeps them so
    over any number of cycles, on every path; a pure noise output is then
    the sample of the register as it is. *)
Theorem noise_cache_stays_coherent :
  forall o : osc,
    (forall c, noise_cache_coherent fadd dac (clock_noise c o)) /\
    (noise_cache_coherent fadd dac o ->
     (forall n, noise_cache_coherent fadd dac (Nat.iter n clock o)) /\
     (forall (this : nat) (st : voices F),
        st !! this = Some o -> waveform o = 8 ->
        output this st
        = Some (dac_sum fadd dac (wave_zero o)
                  (noise_word (shift_register o))))).
Proof.
  intros o. split.
  - intros c. apply recompute_noise_output_coherent.
  - intros Hc. split.
    + induction n as [|n IH]; [exact Hc|].
      rewrite Nat.iter_succ. now apply clock_coherent.
    + intros this st Ho Hw. unfold output. rewrite Ho, Hw. cbn.
      destruct Hc as [_ ->]. now rewrite outputN___noise_word.
Qed.

(** ** The sync pass *)

Lemma set_accumulator_same (o : osc) : set_accumulator (accumulator o) o = o.
Proof. now destruct o. Qed.

Lemma synchronize_sync_target (this : nat) (st : voices F) :
  synchronize this st
  = match sync_target this st with
    | None => None
    | Some None => Some st
    | Some (Some d) => Some (reset_accumulator d st)
    end.
Proof.
  unfold synchronize, sync_target, reset_accumulator.
  destruct (st !! this) as [o|]; [|reflexivity].
  destruct (msb_rising o); [|reflexivity].
  destruct (st !! sync_dest o) as [d|] eqn:Hd; [|reflexivity].
  destruct (sync d); [|reflexivity].
  destruct (sync_and_source_rising st o) as [[|]|]; cbn [negb];
    [reflexivity | now rewrite Hd | reflexivity].
Qed.

Lemma lookup_reset_accumulator (d x : nat) (st : voices F) :
  reset_accumulator d st !! x
  = match st !! x with
    | Some o => Some (if decide (x = d) then set_accumulator 0 o else o)
    | None => None
    end.
Proof.
  unfold reset_accumulator, voices in *. destruct (st !! d) as [v|] eqn:Hd.
  - destruct (decide (x = d)) as [->|Hne].
    + rewrite Hd. apply list_lookup_insert_eq. now apply lookup_lt_Some with v.
    + rewrite list_lookup_insert_ne by congruence. now destruct (st !! x).
  - destruct (decide (x = d)) as [->|Hne].
    + now rewrite Hd.
    + now destruct (st !! x).
Qed.

Lemma sync_target_reset_accumulator (this d : nat) (st : voices F) :
  sync_target this (reset_accumulator d st) = sync_target this st.
Proof.
  unfold sync_target, sync_and_source_rising.
  rewrite lookup_reset_accumulator.
  destruct (st !! this) as [o|]; [|reflexivity].
  assert (Hflags : forall v : osc,
            msb_rising (if decide (this = d) then set_accumulator 0 v else v)
            = msb_rising v /\
            sync_dest (if decide (this = d) then set_accumulator 0 v else v)
            = sync_dest v /\
            sync_source (if decide (this = d) then set_accumulator 0 v else v)
            = sync_source v /\
            sync (if decide (this = d) then set_accumulator 0 v else v)
            = sync v)
    by (intros v; destruct (decide (this = d)); now repeat split).
  destruct (Hflags o) as (-> & -> & -> & ->).
  destruct (msb_rising o); [|reflexivity].
  rewrite !lookup_reset_accumulator.
  destruct (st !! sync_dest o) as [dv|]; [|reflexivity].
  assert (Hs : sync (if decide (sync_dest o = d)
                     then set_accumulator 0 dv else dv) = sync dv)
    by (now destruct (decide (sync_dest o = d))).
  rewrite Hs. destruct (sync dv); [|reflexivity].
  destruct (sync o); [|reflexivity].
  destruct (st !! sync_source o) as [sv|]; [|reflexivity].
  now destruct (decide (sync_source o = d)).
Qed.

Lemma reset_accumulator_comm (a b : nat) (st : voices F) :
  reset_accumulator a (reset_accumulator b st)
  = reset_accumulator b (reset_accumulator a st).
Proof.
  apply list_eq. intros x. rewrite !lookup_reset_accumulator.
  destruct (st !! x) as [o|]; [|reflexivity].
  now destruct (decide (x = a)), (decide (x = b)).
Qed.

Lemma reset_accumulator_idemp (a : nat) (st : voices F) :
  reset_accumulator a (reset_accumulator a st) = reset_accumulator a st.
Proof.
  apply list_eq. intros x. rewrite !lookup_reset_accumulator.
  destruct (st !! x) as [o|]; [|reflexivity].
  now destruct (decide (x = a)).
Qed.

Lemma length_reset_accumulator (d : nat) (st : voices F) :
  length (reset_accumulator d st) = length st.
Proof.
  unfold reset_accumulator. destruct (st !! d); [|reflexivity].
  apply length_insert.
Qed.

(** X5. [synchronize] changes nothing but accumulators, and those only
    to zero: the number of voices is the same, every voice keeps all its
    other fields, the wiring and [msb_rising] among them, and 24-bit
    accumulators stay 24-bit. *)
Theorem synchronize_changes_accumulators_only :
  forall (this : nat) (st st' : voices F),
    synchronize this st = Some st' ->
    length st' = length st /\
    (forall j o, st !! j = Some o ->
       exists a, st' !! j = Some (set_accumulator a o) /\
                 (a = accumulator o \/ a = 0)) /\
    (Forall accumulator_ok st -> Forall accumulator_ok st').
Proof.
  intros this st st' Hsync.
  assert (Hst' : st' = st \/ exists d, st' = reset_accumulator d st).
  { rewrite synchronize_sync_target in Hsync.
    destruct (sync_target this st) as [[d|]|]; [| |discriminate].
    - right. exists d. congruence.
    - left. congruence. }
  assert (Hlen : length st' = length st).
  { destruct Hst' as [->|[d ->]]; [reflexivity|].
    apply length_reset_accumulator. }
  assert (Hvoice : forall j o, st !! j = Some o ->
            exists a, st' !! j = Some (set_accumulator a o) /\
                      (a = accumulator o \/ a = 0)).
  { intros j o Ho. destruct Hst' as [->|[d ->]].
    - exists (accumulator o). rewrite set_accumulator_same. auto.
    - rewrite lookup_reset_accumulator, Ho.
      destruct (decide (j = d)).
      + exists 0. auto.
      + exists (accumulator o). rewrite set_accumulator_same. auto. }
  split; [exact Hlen|]. split; [exact Hvoice|].
  rewrite !Forall_lookup. intros Hok j o' Ho'.
  assert (Hj : (j < length st)%nat)
    by (rewrite <- Hlen; now apply lookup_lt_Some with o').
  destruct (lookup_lt_is_Some_2 st j Hj) as [o Ho].
  destruct (Hvoice j o Ho) as (a & Ha & Hcase).
  assert (Heq : Some o' = Some (set_accumulator a o))
    by (transitivity (st' !! j); [symmetry; exact Ho' | exact Ha]).
  injection Heq as ->.
  unfold accumulator_ok. cbn [accumulator set_accumulator].
  destruct Hcase as [->| ->]; [exact (Hok j o Ho) | lia].
Qed.

(** X6. The order of the sync pass does not matter, and repeating it
    changes nothing: [synchronize] for two voices gives the same voices in
    either order, with or without a defined result, and a second
    [synchronize] for the same voice leaves the result of the first. *)
Theorem synchronize_order_irrelevant :
  forall (i j : nat) (st : voices F),
    match synchronize i st with
    | Some s => synchronize j s
    | None => None
    end
    = match synchronize j st with
      | Some s => synchronize i s
      | None => None
      end /\
    match synchronize i st with
    | Some s => synchronize i s
    | None => None
    end
    = synchronize i st.
Proof.
  intros i j st. rewrite !synchronize_sync_target.
  assert (Hafter : forall k (t : option nat),
            sync_target k (match t with
                           | Some d => reset_accumulator d st
                           | None => st
                           end) = sync_target k st)
    by (intros k [d|]; [apply sync_target_reset_accumulator | reflexivity]).
  split.
  - destruct (sync_target i st) as [ti|] eqn:Hi,
             (sync_target j st) as [tj|] eqn:Hj.
    + transitivity
        (Some (match tj with
               | Some d => reset_accumulator d
               | None => fun s => s
               end
               (match ti with
                | Some d => reset_accumulator d st
                | None => st
                end))).
      * destruct ti as [di|]; rewrite synchronize_sync_target;
          [rewrite (Hafter j (Some di)) | ]; rewrite Hj; now destruct tj.
      * destruct tj as [dj|]; rewrite synchronize_sync_target;
          [rewrite (Hafter i (Some dj)) | ]; rewrite Hi;
          destruct ti as [di|]; try reflexivity.
        now rewrite reset_accumulator_comm.
    + destruct ti as [di|]; rewrite synchronize_sync_target;
        [rewrite (Hafter j (Some di)) | ]; now rewrite Hj.
    + destruct tj as [dj|]; rewrite synchronize_sync_target;
        [rewrite (Hafter i (Some dj)) | ]; now rewrite Hi.
    + reflexivity.
  - destruct (sync_target i st) as [[di|]|] eqn:Hi; [| |reflexivity].
    + rewrite synchronize_sync_target, (Hafter i (Some di)), Hi.
      now rewrite reset_accumulator_idemp.
    + now rewrite synchronize_sync_target, Hi.
Qed.

(** ** The table access without a sync source *)

Lemma wftable_at_in_bounds (t p : Z) :
  0 <= t <= 10 -> 0 <= p < 4096 -> wftable_at t p = Some (wftable t p).
Proof.
  intros Ht Hp. unfold wftable_at.
  destruct (Z.leb_spec 0 t); [|lia]. destruct (Z.ltb_spec t 11); [|lia].
  destruct (Z.leb_spec 0 p); [|lia]. destruct (Z.ltb_spec p 4096); [|lia].
  reflexivity.
Qed.

(** The table access of a waveform that needs no sync source. *)
Lemma output_without_ring (this : nat) (st : voices F) (o : osc) :
  st !! this = Some o ->
  1 <= waveform o <= 7 ->
  0 <= accumulator o < 2 ^ 24 ->
  ((waveform o =? 1) || (waveform o =? 5)) && ring_mod o = false ->
  output this st
  = Some (wftable
            (if (4 <=? waveform o)
                && (test o || (pw o <=? Z.shiftr (accumulator o) 12))
             then waveform o + 3 else waveform o - 1)
            (Z.shiftr (accumulator o) 12)).
Proof.
  intros Ho Hw Ha Hring.
  pose proof (phase_below _ Ha) as Hp.
  unfold output. rewrite Ho.
  destruct (Z.eqb_spec (waveform o) 0); [lia|].
  destruct (Z.eqb_spec (waveform o) 8); [lia|].
  destruct (Z.ltb_spec 8 (waveform o)); [lia|].
  unfold wftable_index, ring_mod_flips.
  rewrite triangle_without_sawtooth, Hring by assumption.
  unfold pulse_variant.
  set (gated := (4 <=? waveform o)
                && (test o || (pw o <=? Z.shiftr (accumulator o) 12))).
  assert (Ht : wrap (waveform o + (if gated then 3 else -1))
               = if gated then waveform o + 3 else waveform o - 1)
    by (destruct gated; apply wrap_small; unfold reg_bits; lia).
  rewrite Ht. apply wftable_at_in_bounds; [|assumption].
  subst gated. destruct (Z.leb_spec 4 (waveform o)); cbn [andb];
    [destruct (test o || _)|]; lia.
Qed.

(** X7. [output] follows the [sync_source] pointer only for the
    waveforms 1 and 5 with ring modulation on. For every other waveform
    among 1 to 7, and for 1 and 5 without ring modulation, it returns the
    table entry at the phase of the accumulator whatever the pointer is,
    also when it names no voice; for the waveforms 1 and 5 with ring
    modulation on, a pointer that names no voice leaves the result
    undefined. *)
Theorem output_follows_source_for_ring_mod_only :
  forall (this : nat) (st : voices F) (o : osc),
    st !! this = Some o ->
    1 <= waveform o <= 7 ->
    0 <= accumulator o < 2 ^ 24 ->
    let phase := Z.shiftr (accumulator o) 12 in
    let table := if (4 <=? waveform o) && (test o || (pw o <=? phase))
                 then waveform o + 3 else waveform o - 1 in
    let ring := ((waveform o =? 1) || (waveform o =? 5)) && ring_mod o in
    (ring = false -> output this st = Some (wftable table phase)) /\
    (ring = true -> st !! sync_source o = None -> output this st = None).
Proof.
  intros this st o Ho Hw Ha phase table ring. split.
  - intros Hring. now apply output_without_ring.
  - intros Hring Hs. unfold output. rewrite Ho.
    destruct (Z.eqb_spec (waveform o) 0); [lia|].
    destruct (Z.eqb_spec (waveform o) 8); [lia|].
    destruct (Z.ltb_spec 8 (waveform o)); [lia|].
    unfold wftable_index, ring_mod_flips.
    rewrite triangle_without_sawtooth by assumption.
    fold ring. now rewrite Hring, Hs.
Qed.

(** ** The shift register as a 23-bit register *)

Lemma lfsr23_unstep_bits (y i : Z) :
  0 <= i ->
  Z.testbit (lfsr23_unstep y) i
  = Z.testbit y (i + 1)
    || (xorb (Z.testbit y 0) (Z.testbit y 18) && (i =? 22)).
Proof.
  intros Hi. unfold lfsr23_unstep.
  rewrite Z.lor_spec, Z.shiftr_spec, Z.shiftl_spec by lia. f_equal.
  destruct (Z.eqb_spec i 22) as [->|Hne].
  - rewrite andb_true_r. change (22 - 22) with 0. apply Z.b2z_bit0.
  - rewrite andb_false_r. destruct (Z.lt_ge_cases i 22).
    + apply Z.testbit_neg_r. lia.
    + rewrite b2z_bits by lia.
      destruct (Z.eqb_spec (i - 22) 0); [lia|]. apply andb_false_r.
Qed.

Lemma testbit_above_23 (x i : Z) :
  0 <= x < 2 ^ 23 -> 23 <= i -> Z.testbit x i = false.
Proof.
  intros Hx Hi.
  now apply (proj1 (Z.bounded_iff_bits_nonneg 23 x ltac:(lia) (proj1 Hx))
                   (proj2 Hx)).
Qed.

Lemma lfsr23_unstep_step (x : Z) :
  0 <= x < 2 ^ 23 -> lfsr23_unstep (lfsr23_step x) = x.
Proof.
  intros Hx. apply Z.bits_inj'. intros i Hi.
  rewrite lfsr23_unstep_bits, !lfsr23_step_bits by lia.
  cbn [Z.eqb Z.ltb Z.compare Pos.compare Pos.compare_cont Z.sub Z.add Z.opp
       Z.pos_sub Pos.pred_double andb].
  destruct (Z.eqb_spec (i + 1) 0); [lia|].
  replace (i + 1 - 1) with i by lia.
  destruct (Z.eqb_spec i 22) as [->|Hne].
  - change (22 + 1 <? 23) with false. change (18 - 1) with 17.
    now destruct (Z.testbit x 22), (Z.testbit x 17).
  - rewrite andb_false_r, orb_false_r.
    destruct (Z.ltb_spec (i + 1) 23); [reflexivity|].
    symmetry. apply testbit_above_23; [assumption | lia].
Qed.

Lemma masked_low23 (r : Z) :
  Z.land r noise_clear_mask mod 2 ^ 23
  = Z.land (r mod 2 ^ 23) noise_clear_mask.
Proof.
  apply Z.bits_inj'. intros i Hi.
  rewrite Z.land_spec, !Z.testbit_mod_pow2, Z.land_spec by lia.
  rewrite noise_clear_mask_bits by lia. apply andb_assoc.
Qed.

(** The low 23 bits of the register after [clock_noise(true)]. *)
Lemma clock_noise_low23 (o : osc) :
  shift_register (clock_noise true o) mod 2 ^ 23
  = if 8 <? waveform o
    then Z.land (lfsr23_step (shift_register o mod 2 ^ 23)) noise_clear_mask
    else lfsr23_step (shift_register o mod 2 ^ 23).
Proof.
  pose proof (clock_noise_register true o) as Hr. cbv zeta in Hr.
  rewrite Hr. destruct (8 <? waveform o).
  - now rewrite masked_low23, shifted_low23.
  - apply shifted_low23.
Qed.

(** X8. With a waveform of at most 8 the step of the noise generator
    loses nothing: the 23-bit register before [clock_noise(true)] is
    recovered from the 23-bit register after it by the step backwards, so
    that two registers that differ in their low 23 bits still differ after
    the step. *)
Theorem noise_step_is_reversible :
  forall o : osc,
    waveform o <= 8 ->
    lfsr23_unstep (shift_register (clock_noise true o) mod 2 ^ 23)
    = shift_register o mod 2 ^ 23 /\
    (forall o2 : osc,
       waveform o2 <= 8 ->
       shift_register (clock_noise true o) mod 2 ^ 23
       = shift_register (clock_noise true o2) mod 2 ^ 23 ->
       shift_register o mod 2 ^ 23 = shift_register o2 mod 2 ^ 23).
Proof.
  assert (Hback : forall o : osc,
            waveform o <= 8 ->
            lfsr23_unstep (shift_register (clock_noise true o) mod 2 ^ 23)
            = shift_register o mod 2 ^ 23).
  { intros o Hw. rewrite clock_noise_low23.
    destruct (Z.ltb_spec 8 (waveform o)); [lia|].
    apply lfsr23_unstep_step. apply Z.mod_pos_bound. lia. }
  intros o Hw. split; [now apply Hback|].
  intros o2 Hw2 Heq.
  rewrite <- (Hback o Hw), <- (Hback o2 Hw2). now rewrite Heq.
Qed.

(** The three things [clock] can do to the shift register. *)
Lemma clock_register_cases (o : osc) :
  shift_register (clock o) = shift_register o \/
  (test o = true /\
   shift_register (clock o) = Z.lor (shift_register o) 0x7ffffc) \/
  (test o = false /\
   exists o1 : osc,
     shift_register o1 = shift_register o /\ waveform o1 = waveform o /\
     shift_register (clock o) = shift_register (clock_noise true o1)).
Proof.
  unfold clock. destruct (test o).
  - destruct (nonzero _); [|now left].
    cbn [noise_overwrite_delay set_noise_overwrite_delay].
    destruct (_ =? 0); [|now left].
    right. left. split; [reflexivity|].
    match goal with
    | |- context [recompute_noise_output ?x] =>
        now destruct (recompute_noise_output_eq x) as (-> & _)
    end.
  - match goal with |- context [if ?b then _ else _] => destruct b end.
    + right. right. split; [reflexivity|].
      match goal with
      | |- context [clock_noise true ?x] => exists x
      end.
      now repeat split.
    + now left.
Qed.

Lemma iter_clock_waveform (n : nat) (o : osc) :
  waveform (Nat.iter n clock o) = waveform o.
Proof.
  induction n as [|n IH]; [reflexivity|].
  rewrite Nat.iter_succ.
  now destruct (clock_frame (Nat.iter n clock o)) as (_ & _ & -> & _).
Qed.

Lemma lor_overwrite_low23 (r : Z) : Z.lor r 0x7ffffc mod 2 ^ 23 <> 0.
Proof.
  intros H.
  assert (Hb : Z.testbit (Z.lor r 0x7ffffc mod 2 ^ 23) 2 = true).
  { rewrite Z.mod_pow2_bits_low, Z.lor_spec by lia. apply orb_true_r. }
  rewrite H in Hb. discriminate.
Qed.

(** X9. With a waveform of at most 8, a register whose low 23 bits are
    not all zero never becomes all zero in them, over any number of
    [clock] cycles, with TEST set or clear: the noise generator cannot
    lock up by being clocked. *)
Theorem noise_register_never_drains_by_clocking :
  forall o : osc,
    waveform o <= 8 ->
    shift_register o mod 2 ^ 23 <> 0 ->
    forall n, shift_register (Nat.iter n clock o) mod 2 ^ 23 <> 0.
Proof.
  intros o Hw Hr n. induction n as [|n IH]; [exact Hr|].
  rewrite Nat.iter_succ.
  pose proof (iter_clock_waveform n o) as Hwn.
  destruct (clock_register_cases (Nat.iter n clock o))
    as [-> | [(_ & ->) | (_ & o1 & Hr1 & Hw1 & ->)]].
  - exact IH.
  - apply lor_overwrite_low23.
  - rewrite clock_noise_low23, Hw1, Hr1, Hwn.
    destruct (Z.ltb_spec 8 (waveform o)); [lia|].
    intros H0. apply IH.
    rewrite <- (lfsr23_unstep_step
                  (shift_register (Nat.iter n clock o) mod 2 ^ 23))
      by (apply Z.mod_pos_bound; lia).
    rewrite H0. reflexivity.
Qed.

(** X10. Without TEST a register whose low 23 bits are all zero stays
    so over any number of [clock] cycles, for every waveform, and its noise
    word stays zero: only the overwrite under TEST brings the noise
    generator back. *)
Theorem drained_noise_register_stays_drained :
  forall o : osc,
    test o = false ->
    shift_register o mod 2 ^ 23 = 0 ->
    forall n,
      shift_register (Nat.iter n clock o) mod 2 ^ 23 = 0 /\
      noise_word (shift_register (Nat.iter n clock o)) = 0.
Proof.
  intros o Ht Hr n.
  assert (Hlow : shift_register (Nat.iter n clock o) mod 2 ^ 23 = 0).
  { induction n as [|n IH]; [exact Hr|].
    rewrite Nat.iter_succ.
    assert (Htn : test (Nat.iter n clock o) = false)
      by (destruct (iter_clock_frame n o) as [_ ->]; exact Ht).
    destruct (clock_register_cases (Nat.iter n clock o))
      as [-> | [(Htrue & _) | (_ & o1 & Hr1 & Hw1 & ->)]].
    - exact IH.
    - congruence.
    - rewrite clock_noise_low23, Hr1, IH. now destruct (8 <? _). }
  split; [exact Hlow|].
  now rewrite <- noise_word_low23, Hlow.
Qed.

(** ** Noise combined with another waveform *)

Lemma cleared_step_bits (o : osc) (i : Z) :
  8 < waveform o -> 0 <= i ->
  Z.testbit (shift_register (clock_noise true o)) i
  = cleared_step_bit (Z.testbit (shift_register o)) i.
Proof.
  intros Hw Hi.
  pose proof (clock_noise_register true o) as Hr. cbv zeta in Hr.
  rewrite Hr. destruct (Z.ltb_spec 8 (waveform o)); [|lia].
  rewrite Z.land_spec, shifted_bits, noise_clear_mask_bits by lia.
  unfold cleared_step_bit, reg_bits.
  destruct (Z.eqb_spec i 0) as [->|Hne]; [now destruct (xorb _ _)|].
  destruct (Z.ltb_spec i 23), (Z.ltb_spec i 32); try lia;
    destruct (is_tap i), (Z.testbit _ (i - 1)); reflexivity.
Qed.

Lemma cleared_step_bit_ext (b b' : Z -> bool) (i : Z) :
  (forall j, 0 <= j -> b j = b' j) -> 0 <= i ->
  cleared_step_bit b i = cleared_step_bit b' i.
Proof.
  intros Hb Hi. unfold cleared_step_bit.
  rewrite (Hb 22), (Hb 17) by lia.
  destruct (Z.eqb_spec i 0); [reflexivity|].
  now rewrite (Hb (i - 1)) by lia.
Qed.

Lemma iter_clock_noise_waveform (n : nat) (o : osc) :
  waveform (Nat.iter n (clock_noise true) o) = waveform o.
Proof.
  induction n as [|n IH]; [reflexivity|].
  rewrite Nat.iter_succ.
  now destruct (clock_noise_frame true (Nat.iter n (clock_noise true) o))
    as (_ & _ & _ & _ & -> & _).
Qed.

(** Four steps that clear the taps leave no bit of the register. *)
Lemma four_cleared_steps (b : Z -> bool) (i : Z) :
  0 <= i ->
  cleared_step_bit
    (cleared_step_bit (cleared_step_bit (cleared_step_bit b))) i = false.
Proof.
  intros Hi. destruct (Z.ltb_spec i 23) as [Hlt|Hge].
  - rewrite <- (Z2Nat.id i) by lia.
    assert (Hn : (Z.to_nat i < 23)%nat) by lia.
    generalize dependent (Z.to_nat i). intros n Hn.
    do 23 (destruct n as [|n]; [reflexivity|]). lia.
  - unfold cleared_step_bit at 1.
    destruct (Z.ltb_spec i 23); [lia|].
    now rewrite andb_false_r.
Qed.

(** X11. With a waveform above 8, four steps of the noise generator
    empty the shift register, whatever it held, and it stays empty for
    every further step. *)
Theorem combined_noise_drains_register :
  forall o : osc,
    8 < waveform o ->
    forall n, (4 <= n)%nat ->
      shift_register (Nat.iter n (clock_noise true) o) = 0.
Proof.
  intros o Hw.
  assert (Hstep : forall (k : nat) (i : Z), 0 <= i ->
            Z.testbit (shift_register (Nat.iter (S k) (clock_noise true) o)) i
            = cleared_step_bit
                (Z.testbit (shift_register (Nat.iter k (clock_noise true) o))) i).
  { intros k i Hi. rewrite Nat.iter_succ. apply cleared_step_bits; [|exact Hi].
    now rewrite iter_clock_noise_waveform. }
  assert (H4 : forall k : nat,
            shift_register (Nat.iter (4 + k) (clock_noise true) o) = 0).
  { intros k.
    pose (B := fun m => Z.testbit
                          (shift_register (Nat.iter m (clock_noise true) o))).
    assert (H1 : forall j, 0 <= j ->
              B (S k) j = cleared_step_bit (B k) j)
      by (intros j Hj; now apply Hstep).
    assert (H2 : forall j, 0 <= j ->
              B (S (S k)) j = cleared_step_bit (cleared_step_bit (B k)) j).
    { intros j Hj. unfold B at 1. rewrite Hstep by exact Hj.
      now apply cleared_step_bit_ext. }
    assert (H3 : forall j, 0 <= j ->
              B (S (S (S k))) j
              = cleared_step_bit (cleared_step_bit (cleared_step_bit (B k))) j).
    { intros j Hj. unfold B at 1. rewrite Hstep by exact Hj.
      now apply cleared_step_bit_ext. }
    apply Z.bits_inj'. intros i Hi. rewrite Z.bits_0.
    change (4 + k)%nat with (S (S (S (S k)))).
    rewrite Hstep by exact Hi.
    rewrite (cleared_step_bit_ext _
               (cleared_step_bit (cleared_step_bit (cleared_step_bit (B k)))))
      by assumption.
    now apply four_cleared_steps. }
  intros n Hn. replace n with (4 + (n - 4))%nat by lia. apply H4.
Qed.

(** ** The noise sample *)

Lemma dac_sum_noise_word (r : Z) (v : F) :
  dac_sum fadd dac v (noise_word r)
  = fold_left
      (fun v t => if Z.testbit r (fst t) then fadd v (dac (snd t)) else v)
      (rev noise_taps) v.
Proof.
  unfold noise_word. cbn [fold_right noise_taps fst snd rev app fold_left].
  destruct (Z.testbit r 22), (Z.testbit r 20), (Z.testbit r 16),
    (Z.testbit r 13), (Z.testbit r 11), (Z.testbit r 7),
    (Z.testbit r 4), (Z.testbit r 2); reflexivity.
Qed.

(** X12. The noise sample that [clock_noise] caches, from the register
    itself: starting from [wave_zero], one DAC weight is added for each tap
    that is set, in the order of the taps 2, 4, 7, 11, 13, 16, 20, 22 with
    the weights [dac[4]] to [dac[11]]; the weights [dac[0]] to [dac[3]]
    never enter a noise sample. *)
Theorem noise_sample_from_taps :
  forall (c : bool) (o : osc),
    let o' := clock_noise c o in
    noise_output_cached_dac o'
    = fold_left
        (fun v t =>
           if Z.testbit (shift_register o') (fst t)
           then fadd v (dac (snd t)) else v)
        (rev noise_taps) (wave_zero o).
Proof.
  intros c o o'. destruct (clock_noise_recomputes c o) as [Hw Hd].
  fold o' in Hw, Hd. rewrite Hd, Hw. apply dac_sum_noise_word.
Qed.

(** ** The overwrite under TEST, seen from the output *)

Lemma iter_clock_expiry (o : osc) :
  test o = true -> 0 < noise_overwrite_delay o < 2 ^ 31 ->
  Nat.iter (Z.to_nat (noise_overwrite_delay o)) clock o
  = recompute_noise_output
      (set_shift_register (Z.lor (shift_register o) 0x7ffffc)
         (set_noise_overwrite_delay 0 o)).
Proof.
  intros Ht Hd.
  assert (Hn : Z.to_nat (noise_overwrite_delay o)
               = S (Nat.pred (Z.to_nat (noise_overwrite_delay o)))) by lia.
  rewrite Hn, Nat.iter_succ, iter_clock_counting by (assumption || lia).
  rewrite clock_expiry
    by (cbn [test noise_overwrite_delay set_noise_overwrite_delay];
        first [exact Ht | lia]).
  reflexivity.
Qed.

Lemma noise_word_overwritten (r : Z) : noise_word (Z.lor r 0x7ffffc) = 0xff0.
Proof.
  unfold noise_word. cbn [fold_right noise_taps fst snd].
  rewrite !Z.lor_spec.
  change (Z.testbit 0x7ffffc 22) with true.
  change (Z.testbit 0x7ffffc 20) with true.
  change (Z.testbit 0x7ffffc 16) with true.
  change (Z.testbit 0x7ffffc 13) with true.
  change (Z.testbit 0x7ffffc 11) with true.
  change (Z.testbit 0x7ffffc 7) with true.
  change (Z.testbit 0x7ffffc 4) with true.
  change (Z.testbit 0x7ffffc 2) with true.
  rewrite !orb_true_r. reflexivity.
Qed.

(** X13. When the overwrite delay runs out under TEST, the cached noise
    word is 0xff0, all eight output bits set, whatever the register and the
    waveform were, and the cached sample is [wave_zero] plus the weights
    [dac[4]] to [dac[11]] in this order; a pure noise output then returns
    that sample. *)
Theorem test_expiry_sets_noise_output :
  forall o : osc,
    test o = true ->
    0 < noise_overwrite_delay o < 2 ^ 31 ->
    let o' := Nat.iter (Z.to_nat (noise_overwrite_delay o)) clock o in
    noise_output_cached o' = 0xff0 /\
    noise_output_cached_dac o'
    = fold_left fadd (map dac [4; 5; 6; 7; 8; 9; 10; 11]) (wave_zero o) /\
    (forall (this : nat) (st : voices F),
       st !! this = Some o' -> waveform o = 8 ->
       output this st
       = Some (fold_left fadd (map dac [4; 5; 6; 7; 8; 9; 10; 11])
                 (wave_zero o))).
Proof.
  intros o Ht Hd o'.
  assert (Ho' : o' = recompute_noise_output
                       (set_shift_register (Z.lor (shift_register o) 0x7ffffc)
                          (set_noise_overwrite_delay 0 o)))
    by (now apply iter_clock_expiry).
  assert (Hw : noise_output_cached o' = 0xff0).
  { rewrite Ho'.
    match goal with
    | |- context [recompute_noise_output ?x] =>
        destruct (recompute_noise_output_eq x) as (_ & -> & _)
    end.
    apply noise_word_overwritten. }
  assert (Hs : noise_output_cached_dac o'
               = fold_left fadd (map dac [4; 5; 6; 7; 8; 9; 10; 11])
                   (wave_zero o)).
  { rewrite Ho'.
    match goal with
    | |- context [recompute_noise_output ?x] =>
        destruct (recompute_noise_output_eq x) as (_ & _ & ->)
    end.
    cbn [shift_register set_shift_register wave_zero
         set_noise_overwrite_delay].
    rewrite noise_word_overwritten. reflexivity. }
  split; [exact Hw|]. split; [exact Hs|].
  intros this st Hthis Hwf. unfold output. rewrite Hthis.
  assert (Hwf' : waveform o' = 8) by (rewrite Ho'; exact Hwf).
  rewrite Hwf'. cbn. now f_equal.
Qed.

(** ** Edges of the accumulator *)

Lemma testbit_top (a n : Z) :
  0 <= n -> Z.testbit a n = (2 ^ n <=? a mod 2 ^ (n + 1)).
Proof.
  intros Hn.
  assert (Hpos : 0 < 2 ^ n) by (apply Z.pow_pos_nonneg; lia).
  assert (Hsplit : a mod 2 ^ (n + 1)
                   = a mod 2 ^ n + 2 ^ n * Z.b2z (Z.testbit a n)).
  { rewrite Z.pow_add_r, Z.pow_1_r by lia.
    rewrite Z.rem_mul_r by lia. now rewrite Z.testbit_spec'. }
  pose proof (Z.mod_pos_bound a (2 ^ n) Hpos) as Hlow.
  rewrite Hsplit. destruct (Z.testbit a n); cbn [Z.b2z].
  - symmetry. apply Z.leb_le. lia.
  - symmetry. apply Z.leb_gt. lia.
Qed.

(** X14. For a free-running oscillator with a 16-bit FREQ, [msb_rising]
    is set exactly on the cycle on which the accumulator goes from below
    2^23 to 2^23 or above, and the shift register is stepped exactly on the
    cycles on which the low 20 bits of the accumulator go from below 2^19
    to 2^19 or above; on every other cycle the register and the cached
    noise word are left as they are. *)
Theorem clock_edges_are_crossings :
  forall o : osc,
    test o = false ->
    0 <= accumulator o < 2 ^ 24 ->
    0 <= freq o < 2 ^ 16 ->
    let low := accumulator o mod 2 ^ 20 in
    (msb_rising (clock o) = true
     <-> accumulator o < 2 ^ 23 <= accumulator o + freq o) /\
    (low < 2 ^ 19 <= low + freq o ->
     shift_register (clock o) = shift_register (clock_noise true o)) /\
    (~ (low < 2 ^ 19 <= low + freq o) ->
     shift_register (clock o) = shift_register o /\
     noise_output_cached (clock o) = noise_output_cached o).
Proof.
  intros o Ht Ha Hf low.
  assert (Hlow : 0 <= low < 2 ^ 20) by (apply Z.mod_pos_bound; lia).
  assert (H23 : negb (Z.testbit (accumulator o) 23)
                && Z.testbit ((accumulator o + freq o) mod 2 ^ 24) 23 = true
                <-> accumulator o < 2 ^ 23 <= accumulator o + freq o).
  { rewrite !(testbit_top _ 23) by lia. change (23 + 1) with 24.
    rewrite Z.mod_mod by lia. rewrite (Z.mod_small (accumulator o)) by lia.
    destruct (Z.leb_spec (2 ^ 23) (accumulator o)); cbn [negb andb].
    - split; [discriminate | lia].
    - rewrite (Z.mod_small (accumulator o + freq o)) by lia.
      destruct (Z.leb_spec (2 ^ 23) (accumulator o + freq o));
        split; (reflexivity || discriminate || lia). }
  assert (H19 : negb (Z.testbit (accumulator o) 19)
                && Z.testbit ((accumulator o + freq o) mod 2 ^ 24) 19 = true
                <-> low < 2 ^ 19 <= low + freq o).
  { rewrite !(testbit_top _ 19) by lia. change (19 + 1) with 20.
    rewrite (Z.mod_mod_divide _ (2 ^ 24) (2 ^ 20)) by (exists (2 ^ 4); lia).
    rewrite <- (Z.add_mod_idemp_l (accumulator o)) by lia. fold low.
    destruct (Z.leb_spec (2 ^ 19) low); cbn [negb andb].
    - split; [discriminate | lia].
    - rewrite (Z.mod_small (low + freq o)) by lia.
      destruct (Z.leb_spec (2 ^ 19) (low + freq o));
        split; (reflexivity || discriminate || lia). }
  pose proof (clock_running o Ht) as Hclock. cbv zeta in Hclock.
  split; [|split].
  - now rewrite clock_running_msb_rising.
  - intros Hcross. apply H19 in Hcross. rewrite Hclock, Hcross.
    rewrite !clock_noise_register. reflexivity.
  - intros Hcross.
    destruct (negb (Z.testbit (accumulator o) 19)
              && Z.testbit ((accumulator o + freq o) mod 2 ^ 24) 19) eqn:Hb.
    + exfalso. apply Hcross. now apply H19.
    + rewrite Hclock. now split.
Qed.

(** ** Hard sync and the output *)

(** X15. Hard sync restarts the waveform: when a voice whose MSB has
    risen, and which is not synced itself, is synchronized with a
    destination that has SYNC set, the next output of the destination, for
    the waveforms 1 to 7 without ring modulation, is the first entry, phase
    0, of its table. *)
Theorem hard_sync_restarts_waveform :
  forall (this : nat) (st : voices F) (o d : osc),
    st !! this = Some o ->
    st !! sync_dest o = Some d ->
    msb_rising o = true -> sync o = false -> sync d = true ->
    1 <= waveform d <= 7 ->
    ((waveform d =? 1) || (waveform d =? 5)) && ring_mod d = false ->
    exists st',
      synchronize this st = Some st' /\
      output (sync_dest o) st'
      = Some (wftable
                (if (4 <=? waveform d) && (test d || (pw d <=? 0))
                 then waveform d + 3 else waveform d - 1)
                0).
Proof.
  intros this st o d Ho Hd Hm Hso Hsd Hw Hring.
  exists (<[sync_dest o := set_accumulator 0 d]> st). split.
  - unfold synchronize, sync_and_source_rising.
    now rewrite Ho, Hm, Hd, Hsd, Hso.
  - assert (Hlook : <[sync_dest o := set_accumulator 0 d]> st !! sync_dest o
                    = Some (set_accumulator 0 d))
      by (apply list_lookup_insert_eq; now apply lookup_lt_Some with d).
    rewrite (output_without_ring _ _ _ Hlook); try assumption.
    + reflexivity.
    + cbn [accumulator set_accumulator]. lia.
Qed.

End Properties.

(** * Concrete runs *)

Module Run.
Import Sample.

(** FREQ = 4096 from accumulator 0: back at 0 after 4096 cycles, the MSB
    rises on cycle 2048 and not on cycle 2047. *)
Lemma clock_advances_phase_witness :
  freq osc = 4096 /\ accumulator osc = 0 /\ test osc = false /\
  accumulator (clock osc) = 4096 /\
  accumulator (Nat.iter 4096 clock osc) = 0 /\
  msb_rising (Nat.iter 2047 clock osc) = false /\
  msb_rising (Nat.iter 2048 clock osc) = true.
Proof.
  destruct (clock_advances_phase Z.add dac) as [Hstep Hrun].
  destruct (Hrun osc eq_refl eq_refl eq_refl) as (H0 & _ & Hlow & Hmsb).
  assert (H2047 : (0 < 2047 < 2048)%nat) by lia.
  exact (conj eq_refl (conj eq_refl (conj eq_refl
           (conj (proj1 (Hstep osc))
              (conj H0 (conj (Hlow 2047%nat H2047) Hmsb)))))).
Defined.

(** Voice 0 of [chain] resets its destination; the two voices of
    [mutual] leave each other alone. *)
Lemma synchronize_resets_destination_witness :
  (exists st',
     synchronize 0 chain = Some st' /\
     (accumulator <$> st' !! 1%nat) = Some 0 /\
     st' !! 0%nat = chain !! 0%nat) /\
  synchronize 0 mutual = Some mutual /\
  synchronize 1 mutual = Some mutual.
Proof.
  destruct (@synchronize_resets_destination Z) as [Hreset Hmutual].
  split.
  - destruct (Hreset 0%nat chain chain0 chain1 chain1
                eq_refl eq_refl eq_refl)
      as (st' & Hs & Hd & Hother).
    exists st'. split; [exact Hs|]. split.
    + cbn in Hd. rewrite Hd. reflexivity.
    + apply Hother. discriminate.
  - apply (Hmutual mutual 0%nat 1%nat mutual0 mutual1); try reflexivity.
    intros [|[|i]] o d Ho Hd; cbn in Ho.
    + injection Ho as <-. cbn in Hd. now injection Hd as <-.
    + injection Ho as <-. cbn in Hd. now injection Hd as <-.
    + discriminate Ho.
Defined.

(** Waveform 0 holds the previous sample, waveform 8 gives the cached
    noise sample, waveform 12 the zero level. *)
Lemma output_without_table_witness :
  output 0 [set_accumulator 0xabcdef (noise_osc 0 5)]
  = output 0 [noise_osc 0 5] /\
  output 0 [noise_osc 0 5] = Some (previous_dac (noise_osc 0 5)) /\
  output 0 [noise_osc 8 5]
  = Some (noise_output_cached_dac (noise_osc 8 5)) /\
  output 0 [noise_osc 12 5] = Some (wave_zero (noise_osc 12 5)).
Proof.
  destruct (output_without_table wftable 0%nat [noise_osc 0 5]
              (noise_osc 0 5) eq_refl) as (H0 & _ & _).
  destruct (H0 eq_refl) as [Hprev Hhold].
  destruct (output_without_table wftable 0%nat [noise_osc 8 5]
              (noise_osc 8 5) eq_refl) as (_ & H8 & _).
  destruct (output_without_table wftable 0%nat [noise_osc 12 5]
              (noise_osc 12 5) eq_refl) as (_ & _ & H12).
  assert (Hcode : 9 <= waveform (noise_osc 12 5) <= 15)
    by (change (9 <= 12 <= 15); lia).
  exact (conj (Hhold [set_accumulator 0xabcdef (noise_osc 0 5)]
                 (set_accumulator 0xabcdef (noise_osc 0 5))
                 eq_refl eq_refl eq_refl)
           (conj Hprev (conj (H8 eq_refl) (H12 Hcode)))).
Defined.

(** C4 as stated fails: the pulse waveform 4 with PW = 2048 at phase
    2048, which has reached PW, reads table 7, not one of the tables 3 to
    6. *)
Lemma pulse_low_tables_counterexample :
  let o := osc_at 0x800000 in
  ~ (forall t p,
       wftable_index [o] o = Some (t, p) ->
       (test o || (pw o <=? Z.shiftr (accumulator o) 12)) = true <->
       3 <= t <= 6).
Proof.
  intros o H. specialize (H 7 2048 eq_refl).
  destruct H as [H _]. specialize (H eq_refl). lia.
Qed.

(** PW = 2048: phase 2047 reads table 3 and phase 2048 reads table 7. *)
Lemma pulse_selects_table_witness :
  (exists t p,
     wftable_index [osc_at 0x7ff000] (osc_at 0x7ff000) = Some (t, p) /\
     t = 3) /\
  (exists t p,
     wftable_index [osc_at 0x800000] (osc_at 0x800000) = Some (t, p) /\
     t = 7).
Proof.
  split.
  - destruct (pulse_selects_table [osc_at 0x7ff000] (osc_at 0x7ff000)
                (osc_at 0x7ff000) eq_refl)
      as (t & p & Hi & Ht & _).
    + change (4 <= 4 <= 7). lia.
    + exists t, p. split; [exact Hi | exact Ht].
  - destruct (pulse_selects_table [osc_at 0x800000] (osc_at 0x800000)
                (osc_at 0x800000) eq_refl)
      as (t & p & Hi & Ht & _).
    + change (4 <= 4 <= 7). lia.
    + exists t, p. split; [exact Hi | exact Ht].
Defined.

(** C5 as stated fails: waveform 3 has the triangle bit set; with ring
    modulation on and bit 23 of the source's accumulator set, the table
    is not read at the phase with its top bit flipped (it is read at
    phase 0, as the accumulator has it). *)
Lemma ring_mod_triangle_counterexample :
  let o := voice 3 true 0 1 in
  let s := voice 0 false 0x800000 0 in
  let st := ring_pair 3 in
  st !! 0%nat = Some o /\ st !! sync_source o = Some s /\
  Z.testbit (waveform o) 0 = true /\ ring_mod o = true /\
  Z.testbit (accumulator s) 23 = true /\
  output 0 st = Some (wftable 2 0) /\
  ~ (forall t p,
       wftable_index st o = Some (t, p) ->
       p = Z.lxor (Z.shiftr (accumulator o) 12) 0x800).
Proof.
  intros o s st. repeat split.
  intros H. specialize (H 2 0 eq_refl). discriminate H.
Qed.

(** Waveform 1 with ring modulation reads phase 2048 for phase 0;
    waveform 3 reads phase 0. *)
Lemma ring_mod_flips_phase_witness :
  (exists t, wftable_index (ring_pair 1) (voice 1 true 0 1) = Some (t, 2048)) /\
  (exists t, wftable_index (ring_pair 3) (voice 3 true 0 1) = Some (t, 0)).
Proof.
  split.
  - refine (proj1 (ring_mod_flips_phase (ring_pair 1) (voice 1 true 0 1)
                     (voice 0 false 0x800000 0) eq_refl _)).
    change (1 <= 1 <= 7). lia.
  - refine (proj1 (ring_mod_flips_phase (ring_pair 3) (voice 3 true 0 1)
                     (voice 0 false 0x800000 0) eq_refl _)).
    change (1 <= 3 <= 7). lia.
Defined.

(** The pulse waveform at phase 2048 reads [wftable[7][2048]]. *)
Lemma output_table_access_in_bounds_witness :
  exists t p,
    0 <= t <= 10 /\ 0 <= p < 4096 /\
    output 0 [osc_at 0x800000] = Some (wftable t p).
Proof.
  destruct (output_table_access_in_bounds wftable 0%nat [osc_at 0x800000]
              (osc_at 0x800000) (osc_at 0x800000) eq_refl eq_refl)
    as (_ & t & p & _ & _ & Ht & Hp & Hout).
  - change (1 <= 4 <= 7). lia.
  - change (0 <= 0x800000 < 2 ^ 24). lia.
  - exists t, p. exact (conj Ht (conj Hp Hout)).
Defined.

(** C6 as stated fails: from the 23-bit register value 0x400000 with
    the noise waveform alone, one step stores 0x800001, which is not
    below 2^23; the 23-bit step gives 1. The same happens through
    [clock] when bit 19 of the accumulator rises. *)
Lemma noise_register_23_bits_counterexample :
  let o := noise_osc 8 0x400000 in
  0 <= shift_register o < 2 ^ 23 /\
  shift_register (clock_noise true o) = 0x800001 /\
  shift_register (clock (set_accumulator 0x07f000 o)) = 0x800001 /\
  lfsr23_step (shift_register o) = 1 /\
  ~ (shift_register (clock_noise true o) < 2 ^ 23).
Proof.
  intros o. split; [split; [discriminate | reflexivity]|].
  repeat split. intros H. discriminate H.
Qed.

(** From 0x400000 the stored register is 0x800001, below 2^24, with
    low 23 bits 1; with waveform 9 the stored value stays below 2^23. *)
Lemma noise_step_low_bits_witness :
  shift_register (clock_noise true (noise_osc 8 0x400000))
  = 2 * 0x400000 + 1 /\
  shift_register (clock_noise true (noise_osc 8 0x400000)) mod 2 ^ 23
  = lfsr23_step 0x400000 /\
  0 <= shift_register (clock_noise true (noise_osc 9 0x7fffff)) < 2 ^ 23.
Proof.
  destruct (noise_step_low_bits Z.add dac (noise_osc 8 0x400000))
    as (Hlow & _ & _ & _ & Hsmall).
  destruct (noise_step_low_bits Z.add dac (noise_osc 9 0x7fffff))
    as (_ & _ & _ & Hmasked & _).
  assert (H8 : waveform (noise_osc 8 0x400000) <= 8)
    by (change (8 <= 8); lia).
  assert (Hr : 0 <= shift_register (noise_osc 8 0x400000) < 2 ^ 23)
    by (change (0 <= 0x400000 < 2 ^ 23); lia).
  assert (H9 : 8 < waveform (noise_osc 9 0x7fffff))
    by (change (8 < 9); lia).
  exact (conj (proj1 (Hsmall H8 Hr)) (conj Hlow (Hmasked H9))).
Defined.

(** The noise word and its sample after a step from 0x7ffff8, and on
    the cycle on which the overwrite delay runs out. *)
Lemma noise_output_is_tap_permutation_witness :
  Z.testbit (noise_word 0x400000) 11 = Z.testbit 0x400000 22 /\
  noise_output_cached (clock_noise true (noise_osc 8 0x7ffff8))
  = noise_word (shift_register (clock_noise true (noise_osc 8 0x7ffff8))) /\
  noise_output_cached_dac (clock (held 1))
  = dac_sum Z.add dac 0 (noise_output_cached (clock (held 1))).
Proof.
  destruct (noise_output_is_tap_permutation Z.add dac)
    as (Hword & Hstep & Hexpiry).
  assert (Hin : In (22, 11) noise_taps) by (left; reflexivity).
  exact (conj (proj1 (Hword 0x400000) 22 11 Hin)
           (conj (proj1 (Hstep true (noise_osc 8 0x7ffff8)))
              (proj2 (Hexpiry (held 1) eq_refl eq_refl)))).
Defined.

(** Waveform 9: the taps are cleared and the noise word is zero. *)
Lemma combined_noise_clears_taps_witness :
  8 < waveform (noise_osc 9 0x7fffff) /\
  Z.testbit (shift_register (clock_noise true (noise_osc 9 0x7fffff))) 22
  = false /\
  noise_output_cached (clock_noise true (noise_osc 9 0x7fffff)) = 0.
Proof.
  assert (H9 : 8 < waveform (noise_osc 9 0x7fffff))
    by (change (8 < 9); lia).
  destruct (combined_noise_clears_taps Z.add dac true
              (noise_osc 9 0x7fffff) H9) as (_ & Htaps & Hword & _).
  assert (Hin : In (22, 11) noise_taps) by (left; reflexivity).
  exact (conj H9 (conj (Htaps 22 11 Hin) Hword)).
Defined.

(** A drained register under TEST with three cycles of delay left: left
    at zero for two cycles, overwritten on the third. *)
Lemma test_hold_overwrites_register_witness :
  test (held 3) = true /\ shift_register (held 3) = 0 /\
  shift_register (Nat.iter 2 clock (held 3)) = 0 /\
  shift_register (Nat.iter 3 clock (held 3)) = 0x7ffffc /\
  shift_register (Nat.iter 3 clock (held 3)) <> 0 /\
  shift_register (Nat.iter 10 clock (held 3)) <> 0.
Proof.
  assert (Hd : 0 < noise_overwrite_delay (held 3) < 2 ^ 31)
    by (change (0 < 3 < 2 ^ 31); lia).
  destruct (test_hold_overwrites_register Z.add dac (held 3) eq_refl Hd)
    as (Hbefore & Hat & _ & Hafter).
  assert (H2 : (2 < Z.to_nat (noise_overwrite_delay (held 3)))%nat)
    by (change (2 < 3)%nat; lia).
  assert (H3 : (Z.to_nat (noise_overwrite_delay (held 3)) <= 3)%nat)
    by (change (3 <= 3)%nat; lia).
  assert (H10 : (Z.to_nat (noise_overwrite_delay (held 3)) <= 10)%nat)
    by (change (3 <= 10)%nat; lia).
  exact (conj eq_refl (conj eq_refl
           (conj (proj1 (Hbefore 2%nat H2))
              (conj Hat (conj (Hafter 3%nat H3) (Hafter 10%nat H10)))))).
Defined.


(** ** Runs for the further properties *)

(** FREQ = 4096 from 0: 4096 * 5 after five cycles, and back at 0 after
    2^24 cycles. *)
Lemma clock_n_cycles_witness :
  accumulator (Nat.iter 5 clock osc) = (0 + 5 * 4096) mod 2 ^ 24 /\
  accumulator (Nat.iter (1 * Z.to_nat (2 ^ 24)) clock osc) = accumulator osc.
Proof.
  assert (Ha : 0 <= accumulator osc < 2 ^ 24)
    by (change (0 <= 0 < 2 ^ 24); lia).
  exact (conj (proj1 (clock_n_cycles Z.add dac osc 5%nat eq_refl Ha))
              (proj2 (clock_n_cycles Z.add dac osc 1%nat eq_refl Ha))).
Defined.

(** An accumulator beyond 24 bits is brought back by one cycle; a 24-bit
    one stays so. *)
Lemma clock_keeps_accumulator_24_bits_witness :
  accumulator_ok (clock (osc_at 0x12345678)) /\
  accumulator_ok (Nat.iter 7 clock (osc_at 0xfff000)).
Proof.
  assert (Ha : accumulator_ok (osc_at 0xfff000))
    by (change (0 <= 0xfff000 < 2 ^ 24); lia).
  exact (conj
           (proj1 (clock_keeps_accumulator_24_bits Z.add dac
                     (osc_at 0x12345678)) eq_refl)
           (proj2 (clock_keeps_accumulator_24_bits Z.add dac
                     (osc_at 0xfff000)) Ha 7%nat)).
Defined.

(** Under TEST the accumulator and [msb_rising] are as before after ten
    cycles. *)
Lemma clock_keeps_controls_witness :
  same_controls (held 3) (Nat.iter 10 clock (held 3)) /\
  accumulator (Nat.iter 10 clock (held 3)) = accumulator (held 3) /\
  msb_rising (Nat.iter 10 clock (held 3)) = msb_rising (held 3).
Proof.
  exact (conj (proj1 (clock_keeps_controls Z.add dac (held 3) 10%nat))
              (proj2 (clock_keeps_controls Z.add dac (held 3) 10%nat)
                 eq_refl)).
Defined.

(** The cache of a drained noise oscillator is coherent and stays so. *)
Lemma noise_cache_stays_coherent_witness :
  noise_cache_coherent Z.add dac (noise_osc 8 0) /\
  noise_cache_coherent Z.add dac (Nat.iter 5 clock (noise_osc 8 0)) /\
  output 0 [noise_osc 8 0] = Some 0.
Proof.
  assert (Hc : noise_cache_coherent Z.add dac (noise_osc 8 0))
    by (split; reflexivity).
  destruct (proj2 (noise_cache_stays_coherent Z.add dac wftable
                     (noise_osc 8 0)) Hc) as [Hn Hout].
  exact (conj Hc (conj (Hn 5%nat)
                    (Hout 0%nat [noise_osc 8 0] eq_refl eq_refl))).
Defined.

(** The sync pass on [chain] keeps two voices with 24-bit accumulators. *)
Lemma synchronize_changes_accumulators_only_witness :
  exists st',
    synchronize 0 chain = Some st' /\
    length st' = length chain /\ Forall accumulator_ok st'.
Proof.
  assert (Hok : Forall accumulator_ok chain).
  { constructor; [|constructor; [|constructor]].
    - change (0 <= 0x800000 < 2 ^ 24). lia.
    - change (0 <= 0x123456 < 2 ^ 24). lia. }
  exists (reset_accumulator 1 chain).
  destruct (synchronize_changes_accumulators_only 0%nat chain
              (reset_accumulator 1 chain) eq_refl) as (Hlen & _ & Hacc).
  exact (conj eq_refl (conj Hlen (Hacc Hok))).
Defined.

(** Waveform 2 with a sync source that names no voice reads its table;
    waveform 1 with ring modulation has no defined output then. *)
Lemma output_follows_source_for_ring_mod_only_witness :
  output 0 [voice 2 true 0x123456 7] = Some (wftable 1 0x123) /\
  output 0 [voice 1 true 0x123456 7] = None.
Proof.
  assert (H2 : 1 <= waveform (voice 2 true 0x123456 7) <= 7)
    by (change (1 <= 2 <= 7); lia).
  assert (H1 : 1 <= waveform (voice 1 true 0x123456 7) <= 7)
    by (change (1 <= 1 <= 7); lia).
  assert (Ha : forall w, 0 <= accumulator (voice w true 0x123456 7) < 2 ^ 24)
    by (intros w; change (0 <= 0x123456 < 2 ^ 24); lia).
  exact (conj
           (proj1 (output_follows_source_for_ring_mod_only wftable 0%nat
                     [voice 2 true 0x123456 7] (voice 2 true 0x123456 7)
                     eq_refl H2 (Ha 2)) eq_refl)
           (proj2 (output_follows_source_for_ring_mod_only wftable 0%nat
                     [voice 1 true 0x123456 7] (voice 1 true 0x123456 7)
                     eq_refl H1 (Ha 1)) eq_refl eq_refl)).
Defined.

(** The step from 0x7ffff8 is undone by the step backwards. *)
Lemma noise_step_is_reversible_witness :
  lfsr23_unstep
    (shift_register (clock_noise true (noise_osc 8 0x7ffff8)) mod 2 ^ 23)
  = shift_register (noise_osc 8 0x7ffff8) mod 2 ^ 23.
Proof.
  assert (H8 : waveform (noise_osc 8 0x7ffff8) <= 8)
    by (change (8 <= 8); lia).
  exact (proj1 (noise_step_is_reversible Z.add dac (noise_osc 8 0x7ffff8) H8)).
Defined.

(** A register holding 1 is not drained by a thousand cycles. *)
Lemma noise_register_never_drains_by_clocking_witness :
  shift_register (Nat.iter 1000 clock (noise_osc 8 1)) mod 2 ^ 23 <> 0.
Proof.
  assert (H8 : waveform (noise_osc 8 1) <= 8) by (change (8 <= 8); lia).
  assert (Hr : shift_register (noise_osc 8 1) mod 2 ^ 23 <> 0)
    by (change (1 mod 2 ^ 23 <> 0); rewrite Z.mod_small; lia).
  exact (noise_register_never_drains_by_clocking Z.add dac (noise_osc 8 1)
           H8 Hr 1000%nat).
Defined.

(** A drained register is still drained after a thousand cycles. *)
Lemma drained_noise_register_stays_drained_witness :
  shift_register (Nat.iter 1000 clock (noise_osc 8 0)) mod 2 ^ 23 = 0 /\
  noise_word (shift_register (Nat.iter 1000 clock (noise_osc 8 0))) = 0.
Proof.
  exact (drained_noise_register_stays_drained Z.add dac (noise_osc 8 0)
           eq_refl eq_refl 1000%nat).
Defined.

(** With waveform 9 a full register is empty after four steps. *)
Lemma combined_noise_drains_register_witness :
  shift_register (Nat.iter 4 (clock_noise true) (noise_osc 9 0x7fffff)) = 0.
Proof.
  assert (H9 : 8 < waveform (noise_osc 9 0x7fffff))
    by (change (8 < 9); lia).
  assert (H4 : (4 <= 4)%nat) by lia.
  exact (combined_noise_drains_register Z.add dac (noise_osc 9 0x7fffff)
           H9 4%nat H4).
Defined.

(** A drained register under TEST with three cycles of delay left reads
    0xff0 after the third. *)
Lemma test_expiry_sets_noise_output_witness :
  noise_output_cached (Nat.iter 3 clock (held 3)) = 0xff0 /\
  noise_output_cached_dac (Nat.iter 3 clock (held 3)) = 0xff0.
Proof.
  assert (Hd : 0 < noise_overwrite_delay (held 3) < 2 ^ 31)
    by (change (0 < 3 < 2 ^ 31); lia).
  destruct (test_expiry_sets_noise_output Z.add dac wftable (held 3)
              eq_refl Hd) as (Hw & Hs & _).
  exact (conj Hw Hs).
Defined.


(** At 0x7ff000 the next cycle reaches 2^23: the MSB rises; the low 20
    bits are above 2^19 already, so the register is left alone. At 0x07f000
    the low 20 bits reach 2^19 and the register is stepped. *)
Lemma clock_edges_are_crossings_witness :
  msb_rising (clock (osc_at 0x7ff000)) = true /\
  shift_register (clock (osc_at 0x7ff000))
  = shift_register (osc_at 0x7ff000) /\
  shift_register (clock (osc_at 0x07f000))
  = shift_register (clock_noise true (osc_at 0x07f000)).
Proof.
  assert (Hf : forall a, 0 <= freq (osc_at a) < 2 ^ 16)
    by (intros a; change (0 <= 4096 < 2 ^ 16); lia).
  assert (Ha : 0 <= accumulator (osc_at 0x7ff000) < 2 ^ 24)
    by (change (0 <= 0x7ff000 < 2 ^ 24); lia).
  assert (Hb : 0 <= accumulator (osc_at 0x07f000) < 2 ^ 24)
    by (change (0 <= 0x07f000 < 2 ^ 24); lia).
  destruct (clock_edges_are_crossings Z.add dac (osc_at 0x7ff000)
              eq_refl Ha (Hf _)) as (Hmsb & _ & Hstay).
  destruct (clock_edges_are_crossings Z.add dac (osc_at 0x07f000)
              eq_refl Hb (Hf _)) as (_ & Hstep & _).
  assert (H1 : accumulator (osc_at 0x7ff000) < 2 ^ 23
               <= accumulator (osc_at 0x7ff000) + freq (osc_at 0x7ff000))
    by (change (0x7ff000 < 2 ^ 23 <= 0x7ff000 + 4096); lia).
  assert (H2 : ~ (accumulator (osc_at 0x7ff000) mod 2 ^ 20 < 2 ^ 19
                  <= accumulator (osc_at 0x7ff000) mod 2 ^ 20
                     + freq (osc_at 0x7ff000))).
  { change (~ (0x7ff000 mod 2 ^ 20 < 2 ^ 19
               <= 0x7ff000 mod 2 ^ 20 + 4096)).
    change (0x7ff000 mod 2 ^ 20) with 0xff000. lia. }
  assert (H3 : accumulator (osc_at 0x07f000) mod 2 ^ 20 < 2 ^ 19
               <= accumulator (osc_at 0x07f000) mod 2 ^ 20
                  + freq (osc_at 0x07f000)).
  { change (0x07f000 mod 2 ^ 20 < 2 ^ 19 <= 0x07f000 mod 2 ^ 20 + 4096).
    change (0x07f000 mod 2 ^ 20) with 0x7f000. lia. }
  exact (conj (proj2 Hmsb H1) (conj (proj1 (Hstay H2)) (Hstep H3))).
Defined.

(** Voice 0 of [chain] syncs voice 1, whose pulse waveform then reads
    entry 0 of table 3. *)
Lemma hard_sync_restarts_waveform_witness :
  exists st',
    synchronize 0 chain = Some st' /\
    output 1 st' = Some (wftable 3 0).
Proof.
  assert (Hw : 1 <= waveform chain1 <= 7) by (change (1 <= 4 <= 7); lia).
  exact (hard_sync_restarts_waveform wftable 0%nat chain chain0 chain1
           eq_refl eq_refl eq_refl eq_refl eq_refl Hw eq_refl).
Defined.

End Run.
